(** * WalletGui node adapter: lifecycle of the active node handle

    A shallow embedding of [src/WalletGui/NodeAdapter.cpp]: the worker object
    [InProcessNodeInitializer] (its [start] and [stop] slots) and the
    singleton [NodeAdapter] (its [init], [initInProcessNode], [deinit], the
    read accessors, the callback relay and the two configuration builders).

    The node itself ([Node], created by [createRpcNode] and
    [createInprocessNode]) is external to this file of the repository.  It
    is modelled as data: what each of its operations yields when called, and
    a description of what it does while the adapter waits for it.

    Conventions of the model:
    - [Q_ASSERT] is an active check that stops the program (a build without
      [QT_NO_DEBUG]); [Q_CHECK_PTR] throws [std::bad_alloc];
    - a [QEventLoop] leaves at the first arrival connected to [quit] or
      [exit]; the notifications of a node are relayed by the node's own
      calls of the adapter's callbacks, whether a loop waits or not;
    - the two threads are not synchronised: a run says whether the worker
      has torn the node down when the adapter leaves its wait, and a call
      of [deinit] says whether its [connect] came before the worker's
      signal. *)

From stdpp Require Import base option list strings gmap.
From Stdlib Require Import ZArith NArith Lia Sorted.

Local Open Scope Z_scope.

(** ** Exceptions and results of external calls *)

(** The two handlers of the file are [catch (std::runtime_error&)], so the
    only distinction that matters is whether a thrown object is a
    [std::runtime_error] (or derived from it) or anything else. *)
Inductive exn : Type :=
| std_runtime_error
| std_bad_alloc                   (* thrown by Q_CHECK_PTR through qBadAlloc() *)
| other_exception.

Inductive outcome (A : Type) : Type :=
| Returns (a : A)
| Throws (e : exn).
Arguments Returns {A} a.
Arguments Throws {A} e.

(** ** The external node *)

Inductive node_kind : Type := RpcNode | InprocessNode.

(** [IWalletLegacy*] returned by [createWallet]: an opaque address. *)
Definition wallet_ptr : Type := N.

(** A [Node]: the value (or exception) each synchronous operation yields at
    the moment it is called. *)
Record Node : Type := mkNode {
  node_kind_of : node_kind;
  node_getPeerCount : outcome N;
  node_convertPaymentId : string → outcome string;
  node_extractPaymentId : string → outcome string;
  node_createWallet : outcome wallet_ptr;
  node_getLastKnownBlockHeight : outcome N;
  node_getLastLocalBlockHeight : outcome N;
  node_getLastLocalBlockTimestamp : outcome N;
}.

(** What a node pushes to its owner: the completion callback handed to
    [init] (with the [std::error_code] value) and the three [INodeCallback]
    notifications. *)
Inductive node_event : Type :=
| ev_initCallback (err : Z)
| ev_peerCountUpdated (count : N)
| ev_localBlockchainUpdated (height : N)
| ev_lastKnownBlockHeightUpdated (height : N).

(** ** Settings and configuration snapshots *)

Record Settings : Type := mkSettings {
  getDataDir : string;              (* absolutePath() of the data directory *)
  getP2pBindIp : string;
  getP2pBindPort : Z;
  getP2pExternalPort : Z;
  hasAllowLocalIpOption : bool;
  hasHideMyPortOption : bool;
  getPeers : list string;
  getPriorityNodes : list string;
  getExclusiveNodes : list string;
  getSeedNodes : list string;
  isTestnet : bool;
}.

(** [boost::any] restricted to the four C++ types stored by this file. *)
Inductive any : Type :=
| any_string (s : string)
| any_uint16 (n : Z)
| any_bool (b : bool)
| any_string_vector (v : list string).

(** [boost::program_options::variable_value(value, defaulted)]. *)
Record variable_value : Type := mk_variable_value {
  vv_value : any;
  vv_defaulted : bool;
}.

(** [std::map::insert]: the pair is stored only when the key is absent. *)
Definition options_insert (k : string) (v : variable_value)
    (options : gmap string variable_value) : gmap string variable_value :=
  match options !! k with
  | Some _ => options
  | None => <[k := v]> options
  end.

(** [CryptoNote::CoreConfig] and [CryptoNote::NetNodeConfig] are declared
    outside this file; a snapshot is represented by the options it was
    initialised from (and, for the network one, the testnet flag set on it). *)
Record CoreConfig : Type := mkCoreConfig {
  core_options : gmap string variable_value;
}.

Record NetNodeConfig : Type := mkNetNodeConfig {
  net_options : gmap string variable_value;
  net_testnet : bool;
}.

Definition toStdString (s : string) : string := s.
Definition fromStdString (s : string) : string := s.

(** [static_cast<uint16_t>]. *)
Definition to_uint16 (n : Z) : Z := n mod 65536.

(** [Q_FOREACH (item, list) result.push_back(item.toStdString())]. *)
Definition convertStringListToVector (items : list string) : list string :=
  fold_left (λ result item, result ++ [toStdString item]) items [].

Definition vector_empty (v : list string) : bool :=
  match v with [] => true | _ :: _ => false end.

Definition makeCoreConfig (s : Settings) : CoreConfig :=
  let options : gmap string variable_value := ∅ in
  let dataDir := any_string (toStdString (getDataDir s)) in
  let options := options_insert "data-dir" (mk_variable_value dataDir false) options in
  mkCoreConfig options.

Definition makeNetNodeConfig (s : Settings) : NetNodeConfig :=
  let options : gmap string variable_value := ∅ in
  let p2pBindIp := any_string (toStdString (getP2pBindIp s)) in
  let p2pBindPort := any_uint16 (to_uint16 (getP2pBindPort s)) in
  let p2pExternalPort := any_uint16 (to_uint16 (getP2pExternalPort s)) in
  let p2pAllowLocalIp := any_bool (hasAllowLocalIpOption s) in
  let dataDir := any_string (toStdString (getDataDir s)) in
  let hideMyPort := any_bool (hasHideMyPortOption s) in
  let options := options_insert "p2p-bind-ip" (mk_variable_value p2pBindIp false) options in
  let options := options_insert "p2p-bind-port" (mk_variable_value p2pBindPort false) options in
  let options := options_insert "p2p-external-port" (mk_variable_value p2pExternalPort false) options in
  let options := options_insert "allow-local-ip" (mk_variable_value p2pAllowLocalIp false) options in
  let peerList := convertStringListToVector (getPeers s) in
  let options :=
    if negb (vector_empty peerList)
    then options_insert "add-peer" (mk_variable_value (any_string_vector peerList) false) options
    else options in
  let priorityNodeList := convertStringListToVector (getPriorityNodes s) in
  let options :=
    if negb (vector_empty priorityNodeList)
    then options_insert "add-priority-node"
           (mk_variable_value (any_string_vector priorityNodeList) false) options
    else options in
  let exclusiveNodeList := convertStringListToVector (getExclusiveNodes s) in
  let options :=
    if negb (vector_empty exclusiveNodeList)
    then options_insert "add-exclusive-node"
           (mk_variable_value (any_string_vector exclusiveNodeList) false) options
    else options in
  let seedNodeList := convertStringListToVector (getSeedNodes s) in
  let options :=
    if negb (vector_empty seedNodeList)
    then options_insert "seed-node" (mk_variable_value (any_string_vector seedNodeList) false) options
    else options in
  let options := options_insert "hide-my-port" (mk_variable_value hideMyPort false) options in
  let options := options_insert "data-dir" (mk_variable_value dataDir false) options in
  mkNetNodeConfig options (isTestnet s).

(** ** Constants declared outside this file

    [CryptoNote::error::INTERNAL_WALLET_ERROR] ([Wallet/WalletErrors.h]) and
    [CryptoNote::RPC_DEFAULT_PORT] are used here but declared elsewhere; the
    development is parametric in them. *)
Class Constants : Type := mkConstants {
  INTERNAL_WALLET_ERROR : Z;
  RPC_DEFAULT_PORT : Z;
}.

(** ** The worker object *)

Module InProcessNodeInitializer.

(** [Q_SIGNALS] of the class. *)
Inductive signal : Type :=
| nodeInitCompletedSignal
| nodeInitFailedSignal (_errorCode : Z)
| nodeDeinitCompletedSignal.

(** What the worker does to the world, in program order. *)
Inductive effect : Type :=
| Created (n : Node)              (* createInprocessNode returned n *)
| Stored (v : option Node)        (* *_node = v *)
| InitCalled (n : Node)           (* ( *_node)->init(callback) entered *)
| DeinitCalled (n : Node)         (* ( *_node)->deinit() *)
| Emitted (s : signal)            (* Q_EMIT s *)
| Deleted (n : Node).             (* delete *_node *)

(** How the call [( *_node)->init(callback)] ends, seen from [start]:
    it returns, it throws, or it is still running (the node is serving)
    and returns only once [deinit] has been requested on the node. *)
Inductive init_ending : Type :=
| InitReturns
| InitThrows (e : exn)
| InitServing.

(** One invocation of [start] against the external node: what
    [createInprocessNode] yields, the error values with which the node
    invokes the completion callback during [init], and how [init] ends. *)
Record run : Type := mkRunFull {
  createInprocessNode : outcome Node;
  init_callbacks : list Z;
  init_end : init_ending;
  (* what the node pushes to its callback sink (the adapter, line 79)
     while the adapter waits for the init signals *)
  pushed : list node_event;
  (* when init returns by itself: whether lines 97-99 have run by the time
     the adapter leaves its wait (the two threads are not synchronised) *)
  teardown_first : bool;
}.

(** A run in which the node pushes nothing and the worker is ahead. *)
Definition mkRun (c : outcome Node) (errs : list Z) (e : init_ending) : run :=
  mkRunFull c errs e [] true.

(** Where control is when the description of [start] stops. *)
Inductive control_state : Type :=
| Returned                (* start returned to the worker's event loop *)
| Escaped (e : exn)       (* an exception left start *)
| InsideInit.             (* start is suspended inside init *)

(** [_node] is an in/out parameter ([Node**]): [slot] is [*_node] at that
    point. *)
Record report : Type := mkReport {
  slot : option Node;
  effects : list effect;
  control : control_state;
}.

(** The lambda passed to [init] (lines 81-90). [std::error_code] converts
    to [true] exactly when its value is not 0.  The call of
    [QCoreApplication::processEvents()] that follows each [Q_EMIT] serves
    the worker thread's own pending events, of which the model has none. *)
Definition callback (_err : Z) : list effect :=
  if bool_decide (_err ≠ 0)
  then [Emitted (nodeInitFailedSignal _err)]
  else [Emitted nodeInitCompletedSignal].

Definition delete (p : option Node) : list effect :=
  match p with
  | Some n => [Deleted n]
  | None => []
  end.

(** Lines 97-99, reached when [init] has returned. *)
Definition after_init (_node : option Node) : report :=
  {| slot := None;
     effects := delete _node ++ [Stored None; Emitted nodeDeinitCompletedSignal];
     control := Returned |}.

Definition start `{Constants} (r : run) (_node : option Node) : report :=
  match createInprocessNode r with
  | Throws e =>
      (* line 79 precedes the try block *)
      {| slot := _node; effects := []; control := Escaped e |}
  | Returns n =>
      let _node := Some n in
      let done := [Created n; Stored _node; InitCalled n]
                    ++ flat_map callback (init_callbacks r) in
      match init_end r with
      | InitThrows std_runtime_error =>
          {| slot := _node;
             effects := done ++ [Emitted (nodeInitFailedSignal INTERNAL_WALLET_ERROR)];
             control := Returned |}
      | InitThrows e =>
          {| slot := _node; effects := done; control := Escaped e |}
      | InitServing =>
          {| slot := _node; effects := done; control := InsideInit |}
      | InitReturns =>
          let rest := after_init _node in
          {| slot := slot rest; effects := done ++ effects rest; control := control rest |}
      end
  end.

(** [start] at the moment [init] has returned by itself, lines 97-99 not
    yet run: the node is in the slot. *)
Definition start_until_teardown (r : run) (_node : option Node) : report :=
  match createInprocessNode r with
  | Throws e => {| slot := _node; effects := []; control := Escaped e |}
  | Returns n =>
      {| slot := Some n;
         effects := [Created n; Stored (Some n); InitCalled n]
                      ++ flat_map callback (init_callbacks r);
         control := Returned |}
  end.

(** The adapter leaves its wait between the return of [init] and lines
    97-99. *)
Definition teardown_pending (r : run) : bool :=
  match createInprocessNode r, init_end r with
  | Returns _, InitReturns => negb (teardown_first r)
  | _, _ => false
  end.

Definition suspended (rep : report) : bool :=
  match control rep with
  | InsideInit => true
  | Returned | Escaped _ => false
  end.

(** [stop]: [Q_CHECK_PTR( *_node)] then [( *_node)->deinit()];
    [None] when the check fails. *)
Definition stop (_node : option Node) : option (list effect) :=
  match _node with
  | None => None
  | Some n => Some [DeinitCalled n]
  end.

Definition emitted (l : list effect) : list signal :=
  flat_map (λ e, match e with Emitted s => [s] | _ => [] end) l.

Definition deleted (l : list effect) : list Node :=
  flat_map (λ e, match e with Deleted n => [n] | _ => [] end) l.

End InProcessNodeInitializer.

(** ** The adapter *)

Module NodeAdapter.

Module Worker := InProcessNodeInitializer.

(** [Q_SIGNALS] of [NodeAdapter] used in this file. *)
Inductive signal : Type :=
| peerCountUpdatedSignal (_count : N)
| localBlockchainUpdatedSignal (_height : N)
| lastKnownBlockHeightUpdatedSignal (_height : N)
| nodeInitCompletedSignal
| initNodeSignal (_coreConfig : CoreConfig) (_netNodeConfig : NetNodeConfig).

(** Observable effects, oldest first. *)
Inductive effect : Type :=
| Emit (s : signal)               (* Q_EMIT on the adapter *)
| OnWorker (e : Worker.effect)    (* done by the worker object *)
| NodeCreated (n : Node)          (* createRpcNode returned n *)
| NodeInit (n : Node)             (* m_node->init(callback) *)
| NodeDeleted (n : Node)          (* delete m_node *)
| TimerStart (msec : Z)
| TimerStop
| ThreadStart                     (* m_nodeInitializerThread.start() *)
| ThreadQuit.                     (* m_nodeInitializerThread.quit(); wait() *)

(** The adapter, the worker's thread and what has been observed so far.
    [worker_in_init] holds while [Worker.start] is suspended inside the
    node's [init]. *)
Record World : Type := mkWorld {
  m_node : option Node;
  thread_isRunning : bool;
  worker_in_init : bool;
  settings : Settings;
  trace : list effect;
}.

Inductive violation : Type :=
| Q_ASSERT_failed
| null_dereference                (* p-> with p == nullptr *)
| uncaught_on_worker (e : exn).   (* exception left a slot run by the worker thread *)

(** A call on the adapter returns a value, lets an exception through,
    stops the program at a failed check, or stays in a wait loop whose
    awaited signal is never emitted. *)
Inductive result (A : Type) : Type :=
| Ret (a : A) (w : World)
| Raise (e : exn) (w : World)
| Abort (v : violation) (w : World)
| Blocked (w : World).
Arguments Ret {A} a w.
Arguments Raise {A} e w.
Arguments Abort {A} v w.
Arguments Blocked {A} w.

Definition M (A : Type) : Type := World → result A.

#[export] Instance M_ret : MRet M := λ A a w, Ret a w.

#[export] Instance M_bind : MBind M := λ A B f m w,
  match m w with
  | Ret a w' => f a w'
  | Raise e w' => Raise e w'
  | Abort v w' => Abort v w'
  | Blocked w' => Blocked w'
  end.

Definition world_of {A} (r : result A) : World :=
  match r with
  | Ret _ w | Raise _ w | Abort _ w | Blocked w => w
  end.



Definition aborted {A} (r : result A) : option violation :=
  match r with
  | Abort v _ => Some v
  | _ => None
  end.

(** *** Primitive steps *)

Definition get_m_node : M (option Node) := λ w, Ret (m_node w) w.

Definition set_m_node (v : option Node) : M unit := λ w,
  Ret tt (mkWorld v (thread_isRunning w) (worker_in_init w) (settings w) (trace w)).

Definition get_thread_isRunning : M bool := λ w, Ret (thread_isRunning w) w.

Definition set_thread_isRunning (b : bool) : M unit := λ w,
  Ret tt (mkWorld (m_node w) b (worker_in_init w) (settings w) (trace w)).

Definition get_settings : M Settings := λ w, Ret (settings w) w.

Definition log (l : list effect) : M unit := λ w,
  Ret tt (mkWorld (m_node w) (thread_isRunning w) (worker_in_init w) (settings w)
                  (trace w ++ l)).

Definition Q_EMIT (s : signal) : M unit := log [Emit s].

Definition throw {A} (e : exn) : M A := λ w, Raise e w.
Definition abort {A} (v : violation) : M A := λ w, Abort v w.
Definition block {A} : M A := λ w, Blocked w.

(** A call into the node. *)
Definition call {A} (o : outcome A) : M A :=
  match o with
  | Returns a => mret a
  | Throws e => throw e
  end.

(** [try { body } catch (std::runtime_error&) { handler }]. *)
Definition try_catch_runtime_error {A} (body handler : M A) : M A := λ w,
  match body w with
  | Raise std_runtime_error w' => handler w'
  | r => r
  end.

Definition Q_ASSERT (cond : bool) : M unit :=
  if cond then mret tt else abort Q_ASSERT_failed.

Definition is_null (p : option Node) : bool :=
  match p with None => true | Some _ => false end.

(** With exceptions enabled [Q_CHECK_PTR(p)] is
    [if (!(p)) qBadAlloc()]: it throws [std::bad_alloc]. *)
Definition Q_CHECK_PTR (p : option Node) : M unit :=
  if is_null p then throw std_bad_alloc else mret tt.

(** The pointee of [p->]. *)
Definition deref (p : option Node) : M Node :=
  match p with
  | Some n => mret n
  | None => abort null_dereference
  end.

Definition delete (p : option Node) : M unit :=
  match p with
  | Some n => log [NodeDeleted n]
  | None => mret tt
  end.

(** [QDateTime::fromTime_t(uint, Qt::UTC)]: the [uint64_t] of the node is
    converted to the 32-bit parameter. *)
Record QDateTime : Type := mkQDateTime { toTime_t : N; timeSpecUTC : bool }.
Definition fromTime_t (t : N) : QDateTime := mkQDateTime (t mod 2 ^ 32)%N true.

(** *** Read accessors (lines 127-149 and 180-193) *)

Definition getPeerCount : M N :=
  p ← get_m_node;
  Q_ASSERT (negb (is_null p));;
  n ← deref p;
  call (node_getPeerCount n).

(** [getPeerCount] as compiled with [QT_NO_DEBUG], where [Q_ASSERT]
    expands to nothing: line 129 alone. *)
Definition getPeerCount_QT_NO_DEBUG : M N :=
  p ← get_m_node;
  n ← deref p;
  call (node_getPeerCount n).

Definition convertPaymentId (_paymentIdString : string) : M string :=
  p ← get_m_node;
  Q_CHECK_PTR p;;
  n ← deref p;
  try_catch_runtime_error
    (call (node_convertPaymentId n (toStdString _paymentIdString)))
    (mret "").

Definition extractPaymentId (_extra : string) : M string :=
  p ← get_m_node;
  Q_CHECK_PTR p;;
  n ← deref p;
  s ← call (node_extractPaymentId n _extra);
  mret (fromStdString s).

Definition createWallet : M wallet_ptr :=
  p ← get_m_node;
  Q_CHECK_PTR p;;
  n ← deref p;
  call (node_createWallet n).

Definition getLastKnownBlockHeight : M N :=
  p ← get_m_node;
  Q_CHECK_PTR p;;
  n ← deref p;
  call (node_getLastKnownBlockHeight n).

Definition getLastLocalBlockHeight : M N :=
  p ← get_m_node;
  Q_CHECK_PTR p;;
  n ← deref p;
  call (node_getLastLocalBlockHeight n).

Definition getLastLocalBlockTimestamp : M QDateTime :=
  p ← get_m_node;
  Q_CHECK_PTR p;;
  n ← deref p;
  t ← call (node_getLastLocalBlockTimestamp n);
  mret (fromTime_t t).

(** *** Callback relay (lines 195-208) *)

Definition peerCountUpdated (_count : N) : M unit :=
  Q_EMIT (peerCountUpdatedSignal _count).

Definition localBlockchainUpdated (_height : N) : M unit :=
  Q_EMIT (localBlockchainUpdatedSignal _height).

Definition lastKnownBlockHeightUpdated (_height : N) : M unit :=
  Q_EMIT (lastKnownBlockHeightUpdatedSignal _height).


(** *** Waiting for the RPC node (lines 157-168)

    [arrivals] lists what the node delivers to the adapter from
    [initTimer.start()] until the wait is left by a notification or the
    node is deleted (line 175), in order, each with its time in
    milliseconds.  Each arrival is relayed by the node's call of the
    adapter's callback.  The wait is left at the first arrival connected to
    [quit]; the single-shot timer's [timeout] comes before any arrival that
    is not strictly earlier than the interval, and when nothing else is
    left.  What arrives after the timeout is still relayed, until the node
    is deleted. *)
Record rpc_run : Type := mkRpcRun {
  createRpcNode : string → Z → Node;
  arrivals : list (Z * node_event);
}.

Definition initTimer_interval : Z := 3000.

(** The slot run for an arrival: the three [INodeCallback] overrides, and
    the lambda of line 161 that ignores its argument. *)
Definition dispatch (ev : node_event) : M unit :=
  match ev with
  | ev_initCallback _err => mret tt
  | ev_peerCountUpdated c => peerCountUpdated c
  | ev_localBlockchainUpdated h => localBlockchainUpdated h
  | ev_lastKnownBlockHeightUpdated h => lastKnownBlockHeightUpdated h
  end.

(** The two [connect]s of lines 166-167. *)
Definition quits_waitLoop (ev : node_event) : bool :=
  match ev with
  | ev_peerCountUpdated _ | ev_localBlockchainUpdated _ => true
  | ev_initCallback _ | ev_lastKnownBlockHeightUpdated _ => false
  end.

(** [waitLoop.exec()], with the relays of what arrives meanwhile; the
    value is [initTimer.isActive()] on exit. *)
Fixpoint waitLoop_rpc (sched : list (Z * node_event)) : M bool :=
  match sched with
  | [] => mret false
  | (t, ev) :: rest =>
      if initTimer_interval <=? t then mret false
      else
        dispatch ev;;
        if quits_waitLoop ev then mret true else waitLoop_rpc rest
  end.

(** The arrivals at the head of [sched] that come at or after the
    interval. *)
Fixpoint since_timeout (sched : list (Z * node_event)) : list (Z * node_event) :=
  match sched with
  | [] => []
  | (t, ev) :: rest =>
      if initTimer_interval <=? t then (t, ev) :: since_timeout rest else []
  end.

(** What the node still delivers when the timer has fired: the arrivals
    at or after the interval that follow those the loop has dispatched. *)
Fixpoint late_arrivals (sched : list (Z * node_event)) : list (Z * node_event) :=
  match sched with
  | [] => []
  | (t, ev) :: rest =>
      if initTimer_interval <=? t then since_timeout sched
      else if quits_waitLoop ev then [] else late_arrivals rest
  end.

(** The relays of a series of notifications. *)
Fixpoint dispatch_all (evs : list node_event) : M unit :=
  match evs with
  | [] => mret tt
  | ev :: rest => dispatch ev;; dispatch_all rest
  end.

(** *** Waiting for the worker (lines 216-219 and 232-234) *)

(** How far [Worker.start] has come when the adapter leaves its wait. *)
Definition resumed_at `{Constants} (r : Worker.run) (_node : option Node)
    : Worker.report :=
  if Worker.teardown_pending r then Worker.start_until_teardown r _node
  else Worker.start r _node.

(** The queued call of [Worker.start] made by [initNodeSignal], run on the
    worker's thread as far as it has come when the adapter leaves its wait;
    the value is what the worker emitted.  A worker still inside an earlier
    [start] does not serve the request. *)
Definition worker_start `{Constants} (r : Worker.run) : M (list Worker.signal) :=
  λ w,
    if worker_in_init w then Ret [] w
    else
      let rep := resumed_at r (m_node w) in
      let w' := mkWorld (Worker.slot rep) (thread_isRunning w)
                  (Worker.suspended rep)
                  (settings w) (trace w ++ map OnWorker (Worker.effects rep)) in
      match Worker.control rep with
      | Worker.Escaped e => Abort (uncaught_on_worker e) w'
      | _ => Ret (Worker.emitted (Worker.effects rep)) w'
      end.

(** Lines 97-99 run by the worker, whatever the adapter does meanwhile. *)
Definition teardown (w : World) : World :=
  let rep := Worker.after_init (m_node w) in
  mkWorld (Worker.slot rep) (thread_isRunning w) (worker_in_init w) (settings w)
          (trace w ++ map OnWorker (Worker.effects rep)).

(** [body], during or after which the worker finishes a pending
    teardown, however [body] ends. *)
Definition worker_finishes {A} (pending : bool) (body : M A) : M A := λ w,
  if pending then
    match body w with
    | Ret a w' => Ret a (teardown w')
    | Raise e w' => Raise e (teardown w')
    | Abort v w' => Abort v (teardown w')
    | Blocked w' => Blocked (teardown w')
    end
  else body w.

Definition get_worker_in_init : M bool := λ w, Ret (worker_in_init w) w.

(** The node's [deinit] makes a pending [init] return: a suspended
    [Worker.start] runs on from line 97.  The value is what it emits;
    whether the loop of [deinit] is connected by then is for [deinit] to
    say. *)
Definition worker_resume : M (list Worker.signal) := λ w,
  if worker_in_init w then
    let rep := Worker.after_init (m_node w) in
    Ret (Worker.emitted (Worker.effects rep))
        (mkWorld (Worker.slot rep) (thread_isRunning w) false (settings w)
                 (trace w ++ map OnWorker (Worker.effects rep)))
  else Ret [] w.

(** [waitLoop.exec()] of [initInProcessNode]: [nodeInitCompletedSignal] is
    connected to [quit] (and, since the constructor, relayed as the
    adapter's own signal), [nodeInitFailedSignal] to [exit]. *)
Fixpoint waitLoop_init (emitted : list Worker.signal) : M Z :=
  match emitted with
  | [] => block
  | Worker.nodeInitCompletedSignal :: _ =>
      Q_EMIT nodeInitCompletedSignal;; mret 0
  | Worker.nodeInitFailedSignal _errorCode :: _ => mret _errorCode
  | Worker.nodeDeinitCompletedSignal :: rest => waitLoop_init rest
  end.

(** [waitLoop.exec()] of [deinit]: only [nodeDeinitCompletedSignal] is
    connected. *)
Fixpoint waitLoop_deinit (emitted : list Worker.signal) : M unit :=
  match emitted with
  | [] => block
  | Worker.nodeDeinitCompletedSignal :: _ => mret tt
  | Worker.nodeInitCompletedSignal :: rest =>
      Q_EMIT nodeInitCompletedSignal;; waitLoop_deinit rest
  | Worker.nodeInitFailedSignal _ :: rest => waitLoop_deinit rest
  end.

(** *** Lifecycle (lines 151-178, 210-242) *)

Definition initInProcessNode `{Constants} (r : Worker.run) : M bool :=
  p ← get_m_node;
  Q_ASSERT (is_null p);;
  log [ThreadStart];; set_thread_isRunning true;;
  s ← get_settings;
  let coreConfig := makeCoreConfig s in
  let netNodeConfig := makeNetNodeConfig s in
  Q_EMIT (initNodeSignal coreConfig netNodeConfig);;
  busy ← get_worker_in_init;
  emitted ← worker_start r;
  worker_finishes (negb busy && Worker.teardown_pending r)
    (dispatch_all (if (busy : bool) then [] else Worker.pushed r);;
     code ← waitLoop_init emitted;
     if bool_decide (code ≠ 0) then mret false
     else
       local ← getLastLocalBlockHeight;
       Q_EMIT (localBlockchainUpdatedSignal local);;
       known ← getLastKnownBlockHeight;
       Q_EMIT (lastKnownBlockHeightUpdatedSignal known);;
       mret true).

(** The node calls the adapter's callbacks itself (lines 195-208): what it
    delivers between the timeout and line 175 is relayed although no loop
    waits any more. *)
Definition init `{Constants} (rpc : rpc_run) (r : Worker.run) : M bool :=
  p ← get_m_node;
  Q_ASSERT (is_null p);;
  let node := createRpcNode rpc "127.0.0.1" RPC_DEFAULT_PORT in
  log [NodeCreated node];; set_m_node (Some node);;
  log [TimerStart initTimer_interval];;
  log [NodeInit node];;
  initTimer_isActive ← waitLoop_rpc (arrivals rpc);
  if (initTimer_isActive : bool) then
    log [TimerStop];;
    Q_EMIT nodeInitCompletedSignal;;
    mret true
  else
    dispatch_all (map snd (late_arrivals (arrivals rpc)));;
    p ← get_m_node;
    delete p;;
    set_m_node None;;
    initInProcessNode r.

(** [m_nodeInitializer->stop(&m_node)], called directly by [deinit]. *)
Definition worker_stop : M unit :=
  p ← get_m_node;
  match Worker.stop p with
  | None => throw std_bad_alloc
  | Some l => log (map OnWorker l)
  end.

(** [connected_in_time]: the [connect] of line 233 comes before the worker
    emits [nodeDeinitCompletedSignal]; a signal emitted before it is lost
    to the wait. *)
Definition deinit (connected_in_time : bool) : M unit :=
  p ← get_m_node;
  if negb (is_null p) then
    running ← get_thread_isRunning;
    if (running : bool) then
      worker_stop;;
      emitted ← worker_resume;
      waitLoop_deinit (if connected_in_time then emitted else []);;
      log [ThreadQuit];; set_thread_isRunning false
    else
      delete p;;
      set_m_node None
  else mret tt.

End NodeAdapter.

(** * Statements

    Definitions used to state the properties, and sample inputs for the
    closed examples. *)

(** Sample values of the external constants. *)
Definition example_constants : Constants := mkConstants 5 8081.

(** A node whose payment-id operations throw, and one that answers. *)
Definition strict_node : Node :=
  mkNode InprocessNode (Returns 8%N)
    (λ _, Throws std_runtime_error) (λ _, Throws std_runtime_error)
    (Returns 1%N) (Returns 100%N) (Returns 90%N) (Returns 1234%N).

Definition rpc_node : Node :=
  mkNode RpcNode (Returns 3%N) (λ s, Returns s) (λ s, Returns s)
    (Returns 2%N) (Returns 100%N) (Returns 100%N) (Returns 1234%N).

Definition idle_world : NodeAdapter.World :=
  NodeAdapter.mkWorld None false false
    (mkSettings "/data" "0.0.0.0" 17336 0 false false [] [] [] [] false) [].

Definition world_with (n : Node) : NodeAdapter.World :=
  NodeAdapter.mkWorld (Some n) false false (NodeAdapter.settings idle_world) [].

Definition serving_world : NodeAdapter.World :=
  NodeAdapter.mkWorld (Some strict_node) true true (NodeAdapter.settings idle_world) [].

(** The RPC node answers: peer count 5 arrives 200 ms after the timer was
    started. *)
Definition rpc_alive : NodeAdapter.rpc_run :=
  NodeAdapter.mkRpcRun (λ _ _, rpc_node)
    [(10, ev_initCallback 0); (200, ev_peerCountUpdated 5)].

(** Nothing that counts arrives in time. *)
Definition rpc_silent : NodeAdapter.rpc_run :=
  NodeAdapter.mkRpcRun (λ _ _, rpc_node)
    [(50, ev_lastKnownBlockHeightUpdated 9); (3000, ev_peerCountUpdated 5)].

(** The in-process node reports success and goes on serving. *)
Definition run_serving : InProcessNodeInitializer.run :=
  InProcessNodeInitializer.mkRun (Returns strict_node) [0] InProcessNodeInitializer.InitServing.

(** The in-process node reports error 7 and its [init] returns. *)
Definition run_failing : InProcessNodeInitializer.run :=
  InProcessNodeInitializer.mkRun (Returns strict_node) [7] InProcessNodeInitializer.InitReturns.

(** The snapshot holds an option under key [k]. *)
Definition has_option (config : NetNodeConfig) (k : string) : Prop :=
  is_Some (net_options config !! k).

(** The key of a peer-list option, present when the list is not empty. *)
Definition key_if_nonempty (l : list string) (k : string) : gset string :=
  if vector_empty l then ∅ else {[k]}.

Section Vocabulary.
Import NodeAdapter.

(** A liveness notification: peer count or local blockchain height. *)
Definition liveness (ev : node_event) : Prop :=
  (∃ count, ev = ev_peerCountUpdated count) ∨
  (∃ height, ev = ev_localBlockchainUpdated height).

(** Arrivals are listed with non-decreasing times. *)
Definition chronological (sched : list (Z * node_event)) : Prop :=
  StronglySorted (λ a b, a.1 ≤ b.1) sched.

(** Two arrivals that differ at most in the error code handed to the
    completion callback of [init]. *)
Definition same_but_error_code (a b : Z * node_event) : Prop :=
  a.1 = b.1 ∧
  match a.2, b.2 with
  | ev_initCallback _, ev_initCallback _ => True
  | x, y => x = y
  end.

(** [w] with [l] appended to what has been observed. *)
Definition extend (w : World) (l : list effect) : World :=
  mkWorld (m_node w) (thread_isRunning w) (worker_in_init w) (settings w) (trace w ++ l).

(** What the adapter emits when the node delivers [ev] (lines 195-208; the
    completion callback of line 161 emits nothing). *)
Definition relay_of (ev : node_event) : list effect :=
  match ev with
  | ev_initCallback _ => []
  | ev_peerCountUpdated c => [Emit (peerCountUpdatedSignal c)]
  | ev_localBlockchainUpdated h => [Emit (localBlockchainUpdatedSignal h)]
  | ev_lastKnownBlockHeightUpdated h => [Emit (lastKnownBlockHeightUpdatedSignal h)]
  end.

Definition relays (evs : list node_event) : list effect := flat_map relay_of evs.

(** A relayed node notification, and nothing else. *)
Definition relay_only (e : effect) : bool :=
  match e with
  | Emit (peerCountUpdatedSignal _)
  | Emit (localBlockchainUpdatedSignal _)
  | Emit (lastKnownBlockHeightUpdatedSignal _) => true
  | _ => false
  end.


(** The first of the worker's signals that ends the wait of
    [initInProcessNode]. *)
Fixpoint first_init_signal (l : list Worker.signal) : option Worker.signal :=
  match l with
  | [] => None
  | Worker.nodeDeinitCompletedSignal :: rest => first_init_signal rest
  | s :: _ => Some s
  end.

End Vocabulary.


Section MoreVocabulary.
Import NodeAdapter.

(** The adapter as its constructor leaves it (line 113): no node, the
    worker's thread not started, the worker idle, nothing observed. *)
Definition constructed (s : Settings) : World := mkWorld None false false s [].

(** The calls a client of the adapter can make. *)
Inductive client_call : Type :=
| call_init (rpc : rpc_run) (r : Worker.run)
| call_initInProcessNode (r : Worker.run)
| call_deinit (connected_in_time : bool)
| call_getPeerCount
| call_getLastKnownBlockHeight
| call_getLastLocalBlockHeight
| call_getLastLocalBlockTimestamp
| call_convertPaymentId (s : string)
| call_extractPaymentId (x : string)
| call_createWallet.

(** The world in which the caller goes on: after a return or an exception.
    A failed check or a wait that never ends leaves no such world. *)
Definition resumes {A} (r : result A) : option World :=
  match r with
  | Ret _ w | Raise _ w => Some w
  | Abort _ _ | Blocked _ => None
  end.

Definition perform `{Constants} (c : client_call) (w : World) : option World :=
  match c with
  | call_init rpc r => resumes (init rpc r w)
  | call_initInProcessNode r => resumes (initInProcessNode r w)
  | call_deinit connected => resumes (deinit connected w)
  | call_getPeerCount => resumes (getPeerCount w)
  | call_getLastKnownBlockHeight => resumes (getLastKnownBlockHeight w)
  | call_getLastLocalBlockHeight => resumes (getLastLocalBlockHeight w)
  | call_getLastLocalBlockTimestamp => resumes (getLastLocalBlockTimestamp w)
  | call_convertPaymentId s => resumes (convertPaymentId s w)
  | call_extractPaymentId x => resumes (extractPaymentId x w)
  | call_createWallet => resumes (createWallet w)
  end.

(** Worlds a client can bring the adapter to. *)
Inductive reachable `{Constants} (s : Settings) : World → Prop :=
| reachable_constructed : reachable s (constructed s)
| reachable_call (w w' : World) (c : client_call) :
    reachable s w → perform c w = Some w' → reachable s w'.

(** A [start] suspended inside [init] has its thread running and its node
    in the slot. *)
Definition worker_consistent (w : World) : Prop :=
  worker_in_init w = true → thread_isRunning w = true ∧ is_Some (m_node w).

End MoreVocabulary.


(** Unfolds the monadic plumbing of [NodeAdapter.M]. *)
Ltac run_M :=
  cbv beta iota zeta delta
    [mbind mret NodeAdapter.M_bind NodeAdapter.M_ret
     NodeAdapter.get_m_node NodeAdapter.set_m_node
     NodeAdapter.get_thread_isRunning NodeAdapter.set_thread_isRunning
     NodeAdapter.get_settings NodeAdapter.get_worker_in_init
     NodeAdapter.log NodeAdapter.Q_EMIT
     NodeAdapter.throw NodeAdapter.abort NodeAdapter.block NodeAdapter.call
     NodeAdapter.try_catch_runtime_error
     NodeAdapter.Q_ASSERT NodeAdapter.Q_CHECK_PTR NodeAdapter.deref
     NodeAdapter.is_null NodeAdapter.delete negb
     NodeAdapter.m_node NodeAdapter.thread_isRunning NodeAdapter.worker_in_init
     NodeAdapter.settings NodeAdapter.trace].


(** Decides the comparisons of option keys left in the goal. *)
Ltac resolve_keys :=
  repeat match goal with
         | |- context [decide (?a = ?b)] =>
             first [ rewrite (decide_True (P := a = b)) by reflexivity
                   | rewrite (decide_False (P := a = b)) by discriminate ]
         end.


(** * Properties *)

(** ** The worker's [start] *)

Section Worker.
Import InProcessNodeInitializer.
Context `{Constants}.

Lemma emitted_app (l1 l2 : list effect) :
  emitted (l1 ++ l2) = emitted l1 ++ emitted l2.
Proof. unfold emitted. apply flat_map_app. Qed.

Lemma deleted_app (l1 l2 : list effect) :
  deleted (l1 ++ l2) = deleted l1 ++ deleted l2.
Proof. unfold deleted. apply flat_map_app. Qed.

Lemma deleted_callbacks (errs : list Z) :
  deleted (flat_map callback errs) = [].
Proof.
  induction errs as [|err errs IH]; [done|].
  simpl. rewrite deleted_app, IH. unfold callback.
  by destruct (bool_decide (err ≠ 0)).
Qed.

Lemma start_construction_throws (r : run) (_node : option Node) (e : exn) :
  createInprocessNode r = Throws e →
  start r _node = {| slot := _node; effects := []; control := Escaped e |}.
Proof. intros E. unfold start. by rewrite E. Qed.

Lemma start_init_returns (r : run) (_node : option Node) (n : Node) :
  createInprocessNode r = Returns n →
  init_end r = InitReturns →
  start r _node =
    {| slot := None;
       effects := [Created n; Stored (Some n); InitCalled n]
                    ++ flat_map callback (init_callbacks r)
                    ++ [Deleted n; Stored None; Emitted nodeDeinitCompletedSignal];
       control := Returned |}.
Proof. intros E1 E2. unfold start. rewrite E1, E2. simpl. done. Qed.

Lemma start_init_serving (r : run) (_node : option Node) (n : Node) :
  createInprocessNode r = Returns n →
  init_end r = InitServing →
  start r _node =
    {| slot := Some n;
       effects := [Created n; Stored (Some n); InitCalled n]
                    ++ flat_map callback (init_callbacks r);
       control := InsideInit |}.
Proof. intros E1 E2. unfold start. by rewrite E1, E2. Qed.

Lemma start_init_runtime_error (r : run) (_node : option Node) (n : Node) :
  createInprocessNode r = Returns n →
  init_end r = InitThrows std_runtime_error →
  start r _node =
    {| slot := Some n;
       effects := ([Created n; Stored (Some n); InitCalled n]
                    ++ flat_map callback (init_callbacks r))
                    ++ [Emitted (nodeInitFailedSignal INTERNAL_WALLET_ERROR)];
       control := Returned |}.
Proof. intros E1 E2. unfold start. by rewrite E1, E2. Qed.

(** Every error code the worker reports is non-zero, provided the
    constant used by the handler is. *)
Lemma emitted_failure_nonzero (r : run) (_node : option Node) (code : Z) :
  INTERNAL_WALLET_ERROR ≠ 0 →
  nodeInitFailedSignal code ∈ emitted (effects (start r _node)) →
  code ≠ 0.
Proof.
  intros Hc. unfold start.
  assert (Hcb : ∀ errs, nodeInitFailedSignal code ∈ emitted (flat_map callback errs) → code ≠ 0).
  { induction errs as [|err errs IH]; simpl.
    - intros Hin. by apply elem_of_nil in Hin.
    - rewrite emitted_app. intros [Hin|Hin]%elem_of_app; [|by apply IH].
      unfold callback in Hin. case_bool_decide as Hne; simpl in Hin.
      + apply list_elem_of_singleton in Hin. congruence.
      + apply list_elem_of_singleton in Hin. discriminate. }
  destruct (createInprocessNode r) as [n|e]; simpl.
  - destruct (init_end r) as [|[]|]; simpl; rewrite ?emitted_app; simpl;
      rewrite ?elem_of_app; intros Hin;
      repeat match goal with
             | Hd : _ ∨ _ |- _ => destruct Hd as [Hd|Hd]
             end; eauto.
    + apply list_elem_of_singleton in Hin. discriminate.
    + apply list_elem_of_singleton in Hin. congruence.
  - intros Hin. by apply elem_of_nil in Hin.
Qed.

End Worker.
Section WorkerClaims.
Import InProcessNodeInitializer.

(** C4, as stated, fails: when [createInprocessNode] throws, the exception
    leaves [start] (line 79 is outside the try block) and no signal is
    emitted. *)
Lemma start_construction_exception_escapes :
  let rep := @start example_constants
               (mkRun (Throws std_runtime_error) [] InitReturns) None in
  control rep = Escaped std_runtime_error ∧ emitted (effects rep) = [].
Proof. split; reflexivity. Qed.

(** C4, amended: when construction succeeds and the node's [init] call
    throws a [std::runtime_error], [start] catches it, emits
    [nodeInitFailedSignal(INTERNAL_WALLET_ERROR)] as its last signal and
    returns normally; an exception thrown by [createInprocessNode] itself
    is not caught and leaves [start] with nothing emitted. *)
Theorem start_catches_runtime_error_of_init `{Constants}
    (r : run) (_node : option Node) :
  (∀ n, createInprocessNode r = Returns n →
        init_end r = InitThrows std_runtime_error →
        control (start r _node) = Returned ∧
        emitted (effects (start r _node)) =
          emitted (flat_map callback (init_callbacks r))
            ++ [nodeInitFailedSignal INTERNAL_WALLET_ERROR]) ∧
  (∀ e, createInprocessNode r = Throws e →
        control (start r _node) = Escaped e ∧
        effects (start r _node) = []).
Proof.
  split.
  - intros n E1 E2. rewrite (start_init_runtime_error r _node n E1 E2). simpl.
    split; [done|]. by rewrite emitted_app.
  - intros e E. by rewrite (start_construction_throws r _node e E).
Qed.

Lemma start_catches_runtime_error_of_init_witness :
  let r := mkRun (Returns strict_node) [] (InitThrows std_runtime_error) in
  control (@start example_constants r None) = Returned ∧
  emitted (effects (@start example_constants r None)) = [nodeInitFailedSignal 5].
Proof.
  exact (proj1 (@start_catches_runtime_error_of_init example_constants
                  (mkRun (Returns strict_node) [] (InitThrows std_runtime_error)) None)
               strict_node eq_refl eq_refl).
Defined.

Lemma callbacks_emit_no_deinit `{Constants} (errs : list Z) :
  nodeDeinitCompletedSignal ∉ emitted (flat_map callback errs).
Proof.
  induction errs as [|err errs IH]; simpl.
  - apply not_elem_of_nil.
  - rewrite emitted_app, elem_of_app. intros [Hin|Hin]; [|done].
    unfold callback in Hin. case_bool_decide; simpl in Hin;
      apply list_elem_of_singleton in Hin; discriminate.
Qed.

(** C5, as stated, fails when the node's [init] throws a
    [std::runtime_error]: construction did not throw and the call of [init]
    is over, yet [start] returns from its handler (line 94) with the node
    undeleted and still in the slot, and [nodeDeinitCompletedSignal] is not
    emitted. *)
Lemma start_keeps_node_when_init_throws :
  let r := mkRun (Returns strict_node) [] (InitThrows std_runtime_error) in
  let rep := @start example_constants r None in
  createInprocessNode r = Returns strict_node ∧
  control rep = Returned ∧
  slot rep = Some strict_node ∧
  deleted (effects rep) = [] ∧
  effects rep = [Created strict_node; Stored (Some strict_node); InitCalled strict_node;
                 Emitted (nodeInitFailedSignal 5)].
Proof. repeat split. Qed.

(** C5, amended: when construction does not throw and the node's [init]
    call returns, [start] deletes the node, stores null in the output slot
    and then emits [nodeDeinitCompletedSignal] as its last action before
    returning; this holds when [init] returns at once and when it returns
    later, after having served.  When [init] throws a [std::runtime_error]
    instead, [start] returns with the node undeleted and still in the slot,
    and without that signal. *)
Theorem start_tears_down_after_init `{Constants}
    (r : run) (_node : option Node) (n : Node) :
  createInprocessNode r = Returns n →
  (init_end r = InitReturns →
     let rep := start r _node in
     slot rep = None ∧ control rep = Returned ∧ deleted (effects rep) = [n] ∧
     ∃ before, effects rep =
       before ++ [Deleted n; Stored None; Emitted nodeDeinitCompletedSignal]) ∧
  (init_end r = InitServing →
     let rep := start r _node in
     let rest := after_init (slot rep) in
     control rep = InsideInit ∧ slot rep = Some n ∧ deleted (effects rep) = [] ∧
     slot rest = None ∧ control rest = Returned ∧
     effects rest = [Deleted n; Stored None; Emitted nodeDeinitCompletedSignal]) ∧
  (init_end r = InitThrows std_runtime_error →
     let rep := start r _node in
     control rep = Returned ∧ slot rep = Some n ∧ deleted (effects rep) = [] ∧
     nodeDeinitCompletedSignal ∉ emitted (effects rep)).
Proof.
  intros E1. split; [|split]; intros E2; cbv zeta.
  - rewrite (start_init_returns r _node n E1 E2). simpl.
    repeat split.
    + rewrite deleted_app, deleted_callbacks. done.
    + exists ([Created n; Stored (Some n); InitCalled n]
                ++ flat_map callback (init_callbacks r)).
      by rewrite <- app_assoc.
  - rewrite (start_init_serving r _node n E1 E2). simpl.
    repeat split. apply deleted_callbacks.
  - rewrite (start_init_runtime_error r _node n E1 E2). simpl.
    split; [done|]. split; [done|]. split.
    + rewrite deleted_app, deleted_callbacks. done.
    + rewrite emitted_app, elem_of_app. intros [Hin|Hin].
      * by apply callbacks_emit_no_deinit in Hin.
      * apply list_elem_of_singleton in Hin. discriminate.
Qed.

Lemma start_tears_down_after_init_witness :
  let rep := @start example_constants (mkRun (Returns strict_node) [0] InitReturns) None in
  slot rep = None ∧ control rep = Returned ∧ deleted (effects rep) = [strict_node] ∧
  ∃ before, effects rep =
    before ++ [Deleted strict_node; Stored None; Emitted nodeDeinitCompletedSignal].
Proof.
  exact (proj1 (@start_tears_down_after_init example_constants
                  (mkRun (Returns strict_node) [0] InitReturns) None strict_node eq_refl)
               eq_refl).
Defined.

End WorkerClaims.

(** ** Read accessors *)

Section Accessors.
Import NodeAdapter.

(** C7, as stated, fails: with no active node [createWallet] does not stop
    at an assertion; its [Q_CHECK_PTR] throws [std::bad_alloc], an exception
    the caller can catch. *)
Lemma createWallet_throws_on_null :
  createWallet idle_world = Raise std_bad_alloc idle_world ∧
  aborted (createWallet idle_world) = None.
Proof. split; reflexivity. Qed.

(** C7, amended: with no active node no read accessor returns a value.
    [getPeerCount] stops at its [Q_ASSERT] in a build where assertions are
    active, and dereferences the null pointer in a build with
    [QT_NO_DEBUG]; the six others throw [std::bad_alloc] from their
    [Q_CHECK_PTR], which reaches the caller, also from [convertPaymentId],
    whose handler is for [std::runtime_error] only. *)
Theorem accessors_fail_fast_on_null (w : World) :
  m_node w = None →
  getPeerCount w = Abort Q_ASSERT_failed w ∧
  getPeerCount_QT_NO_DEBUG w = Abort null_dereference w ∧
  getLastKnownBlockHeight w = Raise std_bad_alloc w ∧
  getLastLocalBlockHeight w = Raise std_bad_alloc w ∧
  getLastLocalBlockTimestamp w = Raise std_bad_alloc w ∧
  (∀ s, convertPaymentId s w = Raise std_bad_alloc w) ∧
  (∀ x, extractPaymentId x w = Raise std_bad_alloc w) ∧
  createWallet w = Raise std_bad_alloc w.
Proof.
  destruct w as [node thr wi st tr]. simpl. intros ->.
  repeat split.
Qed.

Lemma accessors_fail_fast_on_null_witness :
  getPeerCount idle_world = Abort Q_ASSERT_failed idle_world ∧
  getLastLocalBlockHeight idle_world = Raise std_bad_alloc idle_world.
Proof.
  pose proof (accessors_fail_fast_on_null idle_world eq_refl) as P.
  split; [apply P | apply P].
Defined.

(** C8, as stated, fails: [extractPaymentId] has no handler, so a
    [std::runtime_error] thrown by the node reaches the caller. *)
Lemma extractPaymentId_propagates :
  extractPaymentId "extra" (world_with strict_node)
  = Raise std_runtime_error (world_with strict_node).
Proof. reflexivity. Qed.

(** C8, amended: [convertPaymentId] swallows a [std::runtime_error] thrown
    by the node and returns the empty string; every other read accessor
    lets whatever the node throws through to the caller. *)
Theorem convertPaymentId_swallows_runtime_error (w : World) (n : Node) :
  m_node w = Some n →
  (∀ s, node_convertPaymentId n (toStdString s) = Throws std_runtime_error →
        convertPaymentId s w = Ret "" w) ∧
  (∀ x e, node_extractPaymentId n x = Throws e → extractPaymentId x w = Raise e w) ∧
  (∀ e, node_getPeerCount n = Throws e → getPeerCount w = Raise e w) ∧
  (∀ e, node_getLastKnownBlockHeight n = Throws e →
        getLastKnownBlockHeight w = Raise e w) ∧
  (∀ e, node_getLastLocalBlockHeight n = Throws e →
        getLastLocalBlockHeight w = Raise e w) ∧
  (∀ e, node_getLastLocalBlockTimestamp n = Throws e →
        getLastLocalBlockTimestamp w = Raise e w) ∧
  (∀ e, node_createWallet n = Throws e → createWallet w = Raise e w).
Proof.
  destruct w as [node thr wi st tr]. simpl. intros ->.
  repeat split; intros;
    match goal with E : _ = Throws _ |- _ => revert E end;
    unfold convertPaymentId, extractPaymentId, getPeerCount, getLastKnownBlockHeight,
      getLastLocalBlockHeight, getLastLocalBlockTimestamp, createWallet, toStdString;
    run_M; intros ->; reflexivity.
Qed.

Lemma convertPaymentId_swallows_runtime_error_witness :
  convertPaymentId "not-a-payment-id" (world_with strict_node)
  = Ret "" (world_with strict_node).
Proof.
  exact (proj1 (convertPaymentId_swallows_runtime_error
                  (world_with strict_node) strict_node eq_refl)
               "not-a-payment-id" eq_refl).
Defined.

End Accessors.

(** ** Configuration snapshots *)

Section Configuration.

Lemma convertStringListToVector_spec (l : list string) :
  convertStringListToVector l = l.
Proof.
  unfold convertStringListToVector, toStdString.
  cut (∀ acc : list string, fold_left (λ result item, result ++ [item]) l acc = acc ++ l).
  { intros Hacc. apply (Hacc []). }
  induction l as [|x l IH]; intros acc; simpl.
  - by rewrite app_nil_r.
  - rewrite IH, <- app_assoc. done.
Qed.

Lemma dom_options_insert (k : string) (v : variable_value)
    (m : gmap string variable_value) :
  dom (options_insert k v m) = {[k]} ∪ dom m.
Proof.
  unfold options_insert. destruct (m !! k) eqn:E.
  - apply leibniz_equiv. intros x. rewrite elem_of_union, elem_of_singleton.
    split; [tauto|]. intros [->|Hx]; [|done]. apply elem_of_dom. eauto.
  - apply dom_insert_L.
Qed.

Lemma dom_options_insert_if (l : list string) (k : string) (v : variable_value)
    (m : gmap string variable_value) :
  dom (if negb (vector_empty l) then options_insert k v m else m)
  = key_if_nonempty l k ∪ dom m.
Proof.
  unfold key_if_nonempty. destruct (vector_empty l); simpl.
  - by rewrite (left_id_L ∅ (∪)).
  - apply dom_options_insert.
Qed.

Lemma key_if_nonempty_elem (l : list string) (k k' : string) :
  k' ∈ key_if_nonempty l k ↔ k' = k ∧ l ≠ [].
Proof.
  unfold key_if_nonempty. destruct l; simpl.
  - rewrite elem_of_empty. intuition congruence.
  - rewrite elem_of_singleton. intuition congruence.
Qed.

Lemma makeNetNodeConfig_dom (s : Settings) :
  dom (net_options (makeNetNodeConfig s)) =
    {[ "data-dir" ]} ∪ ({[ "hide-my-port" ]} ∪
    (key_if_nonempty (getSeedNodes s) "seed-node" ∪
    (key_if_nonempty (getExclusiveNodes s) "add-exclusive-node" ∪
    (key_if_nonempty (getPriorityNodes s) "add-priority-node" ∪
    (key_if_nonempty (getPeers s) "add-peer" ∪
    ({[ "allow-local-ip" ]} ∪ ({[ "p2p-external-port" ]} ∪
    ({[ "p2p-bind-port" ]} ∪ ({[ "p2p-bind-ip" ]} ∪ ∅))))))))).
Proof.
  unfold makeNetNodeConfig. cbv zeta. unfold net_options.
  rewrite !convertStringListToVector_spec.
  repeat first [rewrite dom_options_insert | rewrite dom_options_insert_if].
  by rewrite dom_empty_L.
Qed.

Lemma has_option_makeNetNodeConfig (s : Settings) (k : string) :
  has_option (makeNetNodeConfig s) k ↔
    k = "data-dir" ∨ k = "hide-my-port" ∨
    (k = "seed-node" ∧ getSeedNodes s ≠ []) ∨
    (k = "add-exclusive-node" ∧ getExclusiveNodes s ≠ []) ∨
    (k = "add-priority-node" ∧ getPriorityNodes s ≠ []) ∨
    (k = "add-peer" ∧ getPeers s ≠ []) ∨
    k = "allow-local-ip" ∨ k = "p2p-external-port" ∨
    k = "p2p-bind-port" ∨ k = "p2p-bind-ip" ∨ False.
Proof.
  unfold has_option. rewrite <- elem_of_dom, makeNetNodeConfig_dom.
  rewrite !elem_of_union, !key_if_nonempty_elem, !elem_of_singleton, elem_of_empty.
  reflexivity.
Qed.

(** C10: the snapshot built by [makeNetNodeConfig] always holds the six
    unconditional options and the testnet flag of the settings, and holds
    each of the four peer-list options exactly when the corresponding
    list of the settings is not empty. *)
Theorem makeNetNodeConfig_contents (s : Settings) :
  let config := makeNetNodeConfig s in
  has_option config "p2p-bind-ip" ∧
  has_option config "p2p-bind-port" ∧
  has_option config "p2p-external-port" ∧
  has_option config "allow-local-ip" ∧
  has_option config "hide-my-port" ∧
  has_option config "data-dir" ∧
  net_testnet config = isTestnet s ∧
  (has_option config "add-peer" ↔ getPeers s ≠ []) ∧
  (has_option config "add-priority-node" ↔ getPriorityNodes s ≠ []) ∧
  (has_option config "add-exclusive-node" ↔ getExclusiveNodes s ≠ []) ∧
  (has_option config "seed-node" ↔ getSeedNodes s ≠ []).
Proof.
  cbv zeta.
  repeat split; try reflexivity;
    try (apply has_option_makeNetNodeConfig;
         repeat first [left; reflexivity | right]; fail);
    try (intros Hin; apply has_option_makeNetNodeConfig in Hin;
         repeat match goal with
                | Hd : _ ∨ _ |- _ => destruct Hd as [Hd|Hd]
                end;
         try discriminate; try (destruct Hin; (done || discriminate)); fail);
    try (intros Hne; apply has_option_makeNetNodeConfig;
         repeat first [left; split; [reflexivity|assumption] | right]).
Qed.

End Configuration.
(** ** Lifecycle *)

Section Lifecycle.
Import NodeAdapter.
Context `{Constants}.

Lemma extend_nil (w : World) : extend w [] = w.
Proof. destruct w. unfold extend. simpl. by rewrite app_nil_r. Qed.

Lemma extend_extend (w : World) (l1 l2 : list effect) :
  extend (extend w l1) l2 = extend w (l1 ++ l2).
Proof. unfold extend. simpl. by rewrite app_assoc. Qed.

Lemma liveness_quits (ev : node_event) : liveness ev ↔ quits_waitLoop ev = true.
Proof.
  unfold liveness. destruct ev; simpl; split; try done.
  - intros [[? ?]|[? ?]]; discriminate.
  - eauto.
  - eauto.
  - intros [[? ?]|[? ?]]; discriminate.
Qed.

Lemma dispatch_all_spec (evs : list node_event) (w : World) :
  dispatch_all evs w = Ret tt (extend w (relays evs)).
Proof.
  revert w. induction evs as [|ev evs IH]; intros w; simpl.
  - by rewrite extend_nil.
  - unfold mbind, M_bind.
    assert (dispatch ev w = Ret tt (extend w (relay_of ev))) as ->.
    { destruct ev; simpl; [by rewrite extend_nil|reflexivity..]. }
    by rewrite IH, extend_extend.
Qed.

Lemma relays_relay_only (evs : list node_event) :
  Forall (λ e, relay_only e = true) (relays evs).
Proof.
  induction evs as [|ev evs IH]; simpl; [constructor|].
  apply Forall_app. split; [|done]. destruct ev; simpl; repeat constructor.
Qed.

Lemma dispatch_returns (ev : node_event) (w : World) :
  ∃ l, dispatch ev w = Ret tt (extend w l) ∧ Forall (λ e, relay_only e = true) l.
Proof.
  destruct ev; simpl.
  - exists []. by rewrite extend_nil.
  - eexists [_]. split; [reflexivity|]. by repeat constructor.
  - eexists [_]. split; [reflexivity|]. by repeat constructor.
  - eexists [_]. split; [reflexivity|]. by repeat constructor.
Qed.

(** The wait for the RPC node always ends, and only relays. *)
Lemma waitLoop_rpc_returns (sched : list (Z * node_event)) (w : World) :
  ∃ b l, waitLoop_rpc sched w = Ret b (extend w l) ∧
         Forall (λ e, relay_only e = true) l.
Proof.
  revert w. induction sched as [|[t ev] rest IH]; intros w; simpl.
  - exists false, []. by rewrite extend_nil.
  - destruct (initTimer_interval <=? t).
    + exists false, []. by rewrite extend_nil.
    + destruct (dispatch_returns ev w) as (l & E & Hl).
      unfold mbind, M_bind. rewrite E.
      destruct (quits_waitLoop ev).
      * by exists true, l.
      * destruct (IH (extend w l)) as (b & l' & E' & Hl').
        exists b, (l ++ l'). rewrite E', extend_extend. split; [done|].
        by apply Forall_app.
Qed.

Lemma waitLoop_rpc_liveness (sched : list (Z * node_event)) (t : Z) (ev : node_event) :
  chronological sched →
  (t, ev) ∈ sched →
  t < initTimer_interval →
  liveness ev →
  ∀ w b w', waitLoop_rpc sched w = Ret b w' → b = true.
Proof.
  intros Hsorted Hin Ht Hlive.
  induction sched as [|[t0 ev0] rest IH]; intros w b w'; simpl.
  - by apply elem_of_nil in Hin.
  - apply StronglySorted_inv in Hsorted as [Hrest Hle].
    assert (Ht0 : t0 < initTimer_interval).
    { apply elem_of_cons in Hin as [Heq|Hin].
      - by inversion Heq; subst.
      - rewrite Forall_forall in Hle. specialize (Hle _ Hin). simpl in Hle. lia. }
    destruct (Z.leb_spec initTimer_interval t0) as [?|_]; [lia|].
    destruct (dispatch_returns ev0 w) as (l & E & _).
    unfold mbind, M_bind. rewrite E.
    destruct (quits_waitLoop ev0) eqn:Hq.
    + unfold mret, M_ret. congruence.
    + apply elem_of_cons in Hin as [Heq|Hin].
      * inversion Heq; subst. apply liveness_quits in Hlive. congruence.
      * by apply IH.
Qed.

Lemma waitLoop_rpc_timeout (sched : list (Z * node_event)) :
  (∀ t ev, (t, ev) ∈ sched → liveness ev → initTimer_interval ≤ t) →
  ∀ w b w', waitLoop_rpc sched w = Ret b w' → b = false.
Proof.
  induction sched as [|[t0 ev0] rest IH]; intros Hno w b w'; simpl.
  - unfold mret, M_ret. congruence.
  - destruct (Z.leb_spec initTimer_interval t0) as [?|Ht0].
    + unfold mret, M_ret. congruence.
    + destruct (dispatch_returns ev0 w) as (l & E & _).
      unfold mbind, M_bind. rewrite E.
      destruct (quits_waitLoop ev0) eqn:Hq.
      * apply liveness_quits in Hq.
        specialize (Hno t0 ev0 (list_elem_of_here _ _) Hq). lia.
      * apply IH. intros t ev Hin. apply Hno. by apply list_elem_of_further.
Qed.

Lemma waitLoop_rpc_true_inv (sched : list (Z * node_event)) :
  ∀ w w', waitLoop_rpc sched w = Ret true w' →
  ∃ t ev, (t, ev) ∈ sched ∧ t < initTimer_interval ∧ liveness ev.
Proof.
  induction sched as [|[t0 ev0] rest IH]; intros w w'; simpl.
  - unfold mret, M_ret. congruence.
  - destruct (Z.leb_spec initTimer_interval t0) as [?|Ht0].
    + unfold mret, M_ret. congruence.
    + destruct (dispatch_returns ev0 w) as (l & E & _).
      unfold mbind, M_bind. rewrite E.
      destruct (quits_waitLoop ev0) eqn:Hq.
      * intros _. exists t0, ev0. split; [apply list_elem_of_here|].
        split; [done|]. by apply liveness_quits.
      * intros (t & ev & Hin & ?)%IH. exists t, ev.
        split; [by apply list_elem_of_further|done].
Qed.

Lemma waitLoop_rpc_ignores_error_code (sched1 sched2 : list (Z * node_event)) :
  Forall2 same_but_error_code sched1 sched2 →
  ∀ w, waitLoop_rpc sched1 w = waitLoop_rpc sched2 w.
Proof.
  induction 1 as [|[t1 ev1] [t2 ev2] rest1 rest2 [Ht Hev] _ IH]; intros w; [done|].
  simpl in Ht, Hev. subst t2. simpl.
  destruct (initTimer_interval <=? t1); [done|].
  destruct ev1, ev2; try discriminate; try done;
    inversion Hev; subst; unfold mbind, M_bind; simpl; try done.
  all: apply IH.
Qed.

Lemma relays_ignore_error_code (l1 l2 : list (Z * node_event)) :
  Forall2 same_but_error_code l1 l2 →
  relays (map snd l1) = relays (map snd l2).
Proof.
  induction 1 as [|[t1 ev1] [t2 ev2] rest1 rest2 [_ Hev] _ IH]; [done|].
  change (relay_of ev1 ++ relays (map snd rest1) = relay_of ev2 ++ relays (map snd rest2)).
  rewrite IH. f_equal. simpl in Hev.
  destruct ev1, ev2; try discriminate; try done; by inversion Hev.
Qed.

Lemma since_timeout_same (sched1 sched2 : list (Z * node_event)) :
  Forall2 same_but_error_code sched1 sched2 →
  Forall2 same_but_error_code (since_timeout sched1) (since_timeout sched2).
Proof.
  induction 1 as [|[t1 ev1] [t2 ev2] rest1 rest2 Hhd Htl IH]; [constructor|].
  pose proof Hhd as [Ht Hev]. simpl in Ht, Hev. subst t2. simpl.
  destruct (initTimer_interval <=? t1); by constructor.
Qed.

Lemma late_arrivals_same (sched1 sched2 : list (Z * node_event)) :
  Forall2 same_but_error_code sched1 sched2 →
  Forall2 same_but_error_code (late_arrivals sched1) (late_arrivals sched2).
Proof.
  induction 1 as [|[t1 ev1] [t2 ev2] rest1 rest2 Hhd Htl IH]; [constructor|].
  pose proof Hhd as [Ht Hev]. simpl in Ht, Hev. subst t2.
  change (Forall2 same_but_error_code
            (if initTimer_interval <=? t1 then since_timeout ((t1, ev1) :: rest1)
             else if quits_waitLoop ev1 then [] else late_arrivals rest1)
            (if initTimer_interval <=? t1 then since_timeout ((t1, ev2) :: rest2)
             else if quits_waitLoop ev2 then [] else late_arrivals rest2)).
  destruct (initTimer_interval <=? t1).
  - apply since_timeout_same. by constructor.
  - destruct ev1, ev2; try discriminate; simpl; try done; try constructor.
Qed.

End Lifecycle.

Section Initialisation.
Import NodeAdapter.
Context `{Constants}.

(** The world in which [init] enters its wait loop. *)
Lemma init_unfold (rpc : rpc_run) (r : Worker.run) (w : World) :
  m_node w = None →
  let node := createRpcNode rpc "127.0.0.1" RPC_DEFAULT_PORT in
  let started :=
    mkWorld (Some node) (thread_isRunning w) (worker_in_init w) (settings w)
      (trace w ++ [NodeCreated node; TimerStart initTimer_interval; NodeInit node]) in
  ∃ b relayed,
    waitLoop_rpc (arrivals rpc) started = Ret b (extend started relayed) ∧
    Forall (λ e, relay_only e = true) relayed ∧
    init rpc r w =
      if b then Ret true (extend started (relayed ++ [TimerStop; Emit nodeInitCompletedSignal]))
      else initInProcessNode r
             (mkWorld None (thread_isRunning w) (worker_in_init w) (settings w)
                (trace (extend started
                          (relayed ++ relays (map snd (late_arrivals (arrivals rpc)))))
                   ++ [NodeDeleted node])).
Proof.
  intros Hnull node started.
  destruct (waitLoop_rpc_returns (arrivals rpc) started) as (b & relayed & E & Hrel).
  exists b, relayed. split; [done|]. split; [done|].
  assert (Hstarted : started =
    mkWorld (Some node) (thread_isRunning w) (worker_in_init w) (settings w)
      (((trace w ++ [NodeCreated node]) ++ [TimerStart initTimer_interval]) ++ [NodeInit node])).
  { unfold started. by rewrite <- !app_assoc. }
  destruct w as [p thr wi st tr]. simpl in Hnull. subst p.
  unfold init. run_M. fold node. simpl in Hstarted. rewrite <- Hstarted, E.
  destruct b; simpl.
  - unfold extend. simpl. by rewrite <- !app_assoc.
  - rewrite dispatch_all_spec.
    unfold extend. simpl. by rewrite <- !app_assoc.
Qed.

(** C1: when a peer-count or local-blockchain notification of the RPC node
    arrives strictly before the 3000 ms timer fires, [init] stops the
    timer, emits [nodeInitCompletedSignal] and returns true; the RPC node
    stays in [m_node], and nothing of the in-process path happens: the
    worker's thread is not started, [initNodeSignal] is not emitted, the
    worker does nothing. *)
Theorem init_keeps_rpc_node_on_liveness
    (rpc : rpc_run) (r : Worker.run) (w : World) (t : Z) (ev : node_event) :
  m_node w = None →
  chronological (arrivals rpc) →
  (t, ev) ∈ arrivals rpc →
  t < initTimer_interval →
  liveness ev →
  let node := createRpcNode rpc "127.0.0.1" RPC_DEFAULT_PORT in
  ∃ relayed,
    Forall (λ e, relay_only e = true) relayed ∧
    init rpc r w =
      Ret true
        (mkWorld (Some node) (thread_isRunning w) (worker_in_init w) (settings w)
           (trace w ++ [NodeCreated node; TimerStart initTimer_interval; NodeInit node]
              ++ relayed ++ [TimerStop; Emit nodeInitCompletedSignal])).
Proof.
  intros Hnull Hsorted Hin Ht Hlive node.
  destruct (init_unfold rpc r w Hnull) as (b & relayed & E & Hrel & Hinit).
  fold node in E, Hinit.
  assert (b = true) as -> by (eapply waitLoop_rpc_liveness; eauto).
  exists relayed. split; [done|]. rewrite Hinit. unfold extend. simpl.
  by rewrite <- !app_assoc.
Qed.

(** C2: when no peer-count or local-blockchain notification arrives
    before the 3000 ms timer fires, [init] deletes the RPC node, stores
    null in [m_node], and its result is the result of [initInProcessNode]
    run from there. *)
Theorem init_falls_back_on_timeout (rpc : rpc_run) (r : Worker.run) (w : World) :
  m_node w = None →
  (∀ t ev, (t, ev) ∈ arrivals rpc → liveness ev → initTimer_interval ≤ t) →
  let node := createRpcNode rpc "127.0.0.1" RPC_DEFAULT_PORT in
  ∃ relayed,
    Forall (λ e, relay_only e = true) relayed ∧
    init rpc r w =
      initInProcessNode r
        (mkWorld None (thread_isRunning w) (worker_in_init w) (settings w)
           (trace w ++ [NodeCreated node; TimerStart initTimer_interval; NodeInit node]
              ++ relayed ++ [NodeDeleted node])).
Proof.
  intros Hnull Hno node.
  destruct (init_unfold rpc r w Hnull) as (b & relayed & E & Hrel & Hinit).
  fold node in E, Hinit.
  assert (b = false) as -> by (eapply waitLoop_rpc_timeout; eauto).
  exists (relayed ++ relays (map snd (late_arrivals (arrivals rpc)))).
  split; [apply Forall_app; split; [done|apply relays_relay_only]|].
  rewrite Hinit. unfold extend. simpl.
  by rewrite <- !app_assoc.
Qed.

(** C9: the error code handed by the RPC node to the completion callback
    of [init] does not influence [init]: two runs whose arrivals differ
    only in that code give the same result (value and world).  Whether the
    RPC node is kept is decided by liveness before the timeout alone. *)
Theorem init_ignores_rpc_error_code
    (create : string → Z → Node) (sched1 sched2 : list (Z * node_event))
    (r : Worker.run) (w : World) :
  Forall2 same_but_error_code sched1 sched2 →
  init (mkRpcRun create sched1) r w = init (mkRpcRun create sched2) r w ∧
  (chronological sched1 →
   ∀ b w1 w', waitLoop_rpc sched1 w1 = Ret b w' →
     (b = true ↔ ∃ t ev, (t, ev) ∈ sched1 ∧ t < initTimer_interval ∧ liveness ev)).
Proof.
  intros Hsame. split.
  - destruct w as [[n|] thr wi st tr]; [reflexivity|].
    unfold init. run_M. simpl.
    rewrite (waitLoop_rpc_ignores_error_code _ _ Hsame).
    destruct (waitLoop_rpc sched2 _) as [[|] w1| | |]; try done.
    rewrite !dispatch_all_spec.
    by rewrite (relays_ignore_error_code _ _ (late_arrivals_same _ _ Hsame)).
  - intros Hsorted b w1 w' E. split.
    + intros ->. by eapply waitLoop_rpc_true_inv.
    + intros (t & ev & Hin & Ht & Hlive). by eapply waitLoop_rpc_liveness.
Qed.

End Initialisation.

Section InProcess.
Import NodeAdapter.
Context `{Constants}.

Lemma first_init_signal_elem (l : list Worker.signal) (s : Worker.signal) :
  first_init_signal l = Some s → s ∈ l.
Proof.
  induction l as [|s0 l IH]; simpl; [done|].
  destruct s0; intros E.
  - inversion E. apply list_elem_of_here.
  - inversion E. apply list_elem_of_here.
  - apply list_elem_of_further. by apply IH.
Qed.

Lemma waitLoop_init_spec (l : list Worker.signal) (w : World) :
  waitLoop_init l w =
    match first_init_signal l with
    | Some Worker.nodeInitCompletedSignal => Ret 0 (extend w [Emit nodeInitCompletedSignal])
    | Some (Worker.nodeInitFailedSignal code) => Ret code w
    | _ => Blocked w
    end.
Proof.
  induction l as [|s l IH]; simpl; [done|].
  destruct s; try done.
Qed.


Lemma first_init_signal_app_deinit (l : list Worker.signal) :
  first_init_signal (l ++ [Worker.nodeDeinitCompletedSignal]) = first_init_signal l.
Proof. induction l as [|s l IH]; simpl; [done|]. by destruct s. Qed.

(** The adapter sees the same init signals whether or not the worker has
    torn the node down when the wait is left. *)
Lemma resumed_at_first_init_signal (r : Worker.run) (p : option Node) :
  first_init_signal (Worker.emitted (Worker.effects (resumed_at r p)))
  = first_init_signal (Worker.emitted (Worker.effects (Worker.start r p))).
Proof.
  unfold resumed_at, Worker.teardown_pending, Worker.start_until_teardown, Worker.start.
  destruct (Worker.createInprocessNode r) as [n|e]; [|done].
  destruct (Worker.init_end r) as [|e|]; try done.
  destruct (Worker.teardown_first r); [done|].
  change (first_init_signal (Worker.emitted (flat_map Worker.callback (Worker.init_callbacks r)))
          = first_init_signal
              (Worker.emitted
                 (flat_map Worker.callback (Worker.init_callbacks r)
                    ++ [Worker.Deleted n; Worker.Stored None;
                        Worker.Emitted Worker.nodeDeinitCompletedSignal]))).
  rewrite emitted_app. simpl. by rewrite first_init_signal_app_deinit.
Qed.

Lemma resumed_at_control (r : Worker.run) (p : option Node) :
  Worker.control (resumed_at r p) = Worker.control (Worker.start r p) ∧
  Worker.suspended (resumed_at r p) = Worker.suspended (Worker.start r p).
Proof.
  unfold resumed_at, Worker.teardown_pending, Worker.start_until_teardown, Worker.start,
    Worker.suspended.
  destruct (Worker.createInprocessNode r) as [n|e]; [|done].
  destruct (Worker.init_end r) as [|e|]; try done.
  by destruct (Worker.teardown_first r).
Qed.

(** The world after a pending teardown holds what [start] leaves. *)
Lemma resumed_at_slot (r : Worker.run) :
  (if Worker.teardown_pending r then None else Worker.slot (resumed_at r None))
  = Worker.slot (Worker.start r None).
Proof.
  unfold resumed_at, Worker.teardown_pending, Worker.start.
  destruct (Worker.createInprocessNode r) as [n|e]; [|done].
  destruct (Worker.init_end r) as [|e|]; try done.
  by destruct (Worker.teardown_first r).
Qed.

(** What [initInProcessNode] does up to its request to the worker. *)
Lemma initInProcessNode_unfold (r : Worker.run) (w : World) :
  m_node w = None →
  worker_in_init w = false →
  let rep := resumed_at r None in
  let w1 := mkWorld (Worker.slot rep) true (Worker.suspended rep) (settings w)
              (trace w ++ [ThreadStart;
                           Emit (initNodeSignal (makeCoreConfig (settings w))
                                                (makeNetNodeConfig (settings w)))]
                       ++ map OnWorker (Worker.effects rep)) in
  (∀ e, Worker.control (Worker.start r None) ≠ Worker.Escaped e) →
  initInProcessNode r w =
    worker_finishes (Worker.teardown_pending r)
      (dispatch_all (Worker.pushed r);;
       code ← waitLoop_init (Worker.emitted (Worker.effects rep));
       if bool_decide (code ≠ 0) then mret false
       else
         local ← getLastLocalBlockHeight;
         Q_EMIT (localBlockchainUpdatedSignal local);;
         known ← getLastKnownBlockHeight;
         Q_EMIT (lastKnownBlockHeightUpdatedSignal known);;
         mret true) w1.
Proof.
  destruct w as [p thr wi st tr]. simpl. intros -> -> Hctl.
  unfold initInProcessNode, worker_start.
  cbv beta iota zeta delta
    [mbind mret M_bind M_ret get_m_node set_thread_isRunning get_settings log Q_EMIT
     get_worker_in_init Q_ASSERT is_null m_node thread_isRunning worker_in_init settings
     trace negb andb].
  destruct (resumed_at_control r None) as [Hc _].
  destruct (Worker.control (resumed_at r None)) as [|e|] eqn:E.
  - by rewrite <- !app_assoc.
  - destruct (Hctl e). by rewrite <- Hc.
  - by rewrite <- !app_assoc.
Qed.

(** The result of what follows the request, by the first init signal. *)
Lemma after_request_spec (pushes : list node_event) (sigs : list Worker.signal) (w1 : World) :
  (dispatch_all pushes;;
   code ← waitLoop_init sigs;
   if bool_decide (code ≠ 0) then mret false
   else
     local ← getLastLocalBlockHeight;
     Q_EMIT (localBlockchainUpdatedSignal local);;
     known ← getLastKnownBlockHeight;
     Q_EMIT (lastKnownBlockHeightUpdatedSignal known);;
     mret true) w1
  = match first_init_signal sigs with
    | Some Worker.nodeInitCompletedSignal =>
        (local ← getLastLocalBlockHeight;
         Q_EMIT (localBlockchainUpdatedSignal local);;
         known ← getLastKnownBlockHeight;
         Q_EMIT (lastKnownBlockHeightUpdatedSignal known);;
         mret true) (extend w1 (relays pushes ++ [Emit nodeInitCompletedSignal]))
    | Some (Worker.nodeInitFailedSignal code) =>
        if bool_decide (code ≠ 0) then Ret false (extend w1 (relays pushes))
        else
          (local ← getLastLocalBlockHeight;
           Q_EMIT (localBlockchainUpdatedSignal local);;
           known ← getLastKnownBlockHeight;
           Q_EMIT (lastKnownBlockHeightUpdatedSignal known);;
           mret true) (extend w1 (relays pushes))
    | _ => Blocked (extend w1 (relays pushes))
    end.
Proof.
  unfold mbind at 1. unfold M_bind at 1. rewrite dispatch_all_spec.
  unfold mbind at 1. unfold M_bind at 1. rewrite waitLoop_init_spec.
  destruct (first_init_signal sigs) as [[|code|]|]; try done.
  - rewrite bool_decide_eq_false_2 by (intros ?; done). by rewrite extend_extend.
  - by case_bool_decide.
Qed.



End InProcess.

Section Deinitialisation.
Import NodeAdapter.

(** C6: [deinit] is idempotent.  With no node it returns at once and
    changes nothing; whenever it returns, [m_node] is null; running it
    twice is the same as running it once.  It does return when the worker's
    thread is not running, and when a [start] is waiting inside [init] and
    its [nodeDeinitCompletedSignal] comes after the [connect] of line 233;
    when that signal comes before the [connect] it is lost and [deinit]
    waits for ever, the node having been torn down. *)
Theorem deinit_idempotent (w : World) (connected connected' : bool) :
  (m_node w = None → deinit connected w = Ret tt w) ∧
  (∀ w', deinit connected w = Ret tt w' → m_node w' = None) ∧
  (deinit connected ≫= λ _, deinit connected') w = deinit connected w ∧
  (thread_isRunning w = false ∨ (worker_in_init w = true ∧ connected = true) →
   ∃ w', deinit connected w = Ret tt w' ∧ m_node w' = None) ∧
  (is_Some (m_node w) → thread_isRunning w = true → worker_in_init w = true →
   connected = false →
   ∃ w', deinit connected w = Blocked w' ∧ m_node w' = None).
Proof.
  destruct w as [[n|] thr wi st tr]; simpl.
  - destruct thr, wi, connected; (split; [done|]); (split; [|split; [|split]]);
      try reflexivity;
      try (intros w' E; inversion E; reflexivity);
      try (intros _; eexists; split; reflexivity);
      try (intros _ _ _ _; eexists; split; reflexivity);
      try (intros [?|[? ?]]; discriminate);
      try (intros; discriminate).
  - split; [done|]. split; [by intros w' [= <-]|]. split; [done|].
    split; [intros _; by eexists|]. by intros [? ?].
Qed.

End Deinitialisation.

(** ** Closed instances *)

Section Instances.
Import NodeAdapter.

Lemma init_keeps_rpc_node_on_liveness_witness :
  ∃ relayed,
    Forall (λ e, relay_only e = true) relayed ∧
    @init example_constants rpc_alive run_serving idle_world =
      Ret true
        (mkWorld (Some rpc_node) false false (settings idle_world)
           ([NodeCreated rpc_node; TimerStart 3000; NodeInit rpc_node]
              ++ relayed ++ [TimerStop; Emit nodeInitCompletedSignal])).
Proof.
  apply (@init_keeps_rpc_node_on_liveness example_constants rpc_alive run_serving
           idle_world 200 (ev_peerCountUpdated 5)).
  - reflexivity.
  - repeat constructor; simpl; lia.
  - apply list_elem_of_further, list_elem_of_here.
  - unfold initTimer_interval. lia.
  - left. by exists 5%N.
Defined.

Lemma init_falls_back_on_timeout_witness :
  ∃ relayed,
    Forall (λ e, relay_only e = true) relayed ∧
    @init example_constants rpc_silent run_serving idle_world =
      @initInProcessNode example_constants run_serving
        (mkWorld None false false (settings idle_world)
           ([NodeCreated rpc_node; TimerStart 3000; NodeInit rpc_node]
              ++ relayed ++ [NodeDeleted rpc_node])).
Proof.
  apply (@init_falls_back_on_timeout example_constants rpc_silent run_serving idle_world).
  - reflexivity.
  - intros t ev Hin Hlive. simpl in Hin.
    apply elem_of_cons in Hin as [Heq|Hin].
    + inversion Heq; subst. destruct Hlive as [[? ?]|[? ?]]; discriminate.
    + apply elem_of_cons in Hin as [Heq|Hin].
      * inversion Heq; subst. unfold initTimer_interval. lia.
      * by apply elem_of_nil in Hin.
Defined.

Lemma init_ignores_rpc_error_code_witness :
  @init example_constants
    (mkRpcRun (λ _ _, rpc_node) [(10, ev_initCallback 0); (200, ev_peerCountUpdated 5)])
    run_serving idle_world
  = @init example_constants
      (mkRpcRun (λ _ _, rpc_node) [(10, ev_initCallback 7); (200, ev_peerCountUpdated 5)])
      run_serving idle_world.
Proof.
  apply (@init_ignores_rpc_error_code example_constants).
  repeat constructor.
Defined.


Lemma deinit_idempotent_witness :
  deinit true idle_world = Ret tt idle_world ∧
  (∃ w', deinit true serving_world = Ret tt w' ∧ m_node w' = None) ∧
  (∃ w', deinit false serving_world = Blocked w' ∧ m_node w' = None).
Proof.
  split; [|split].
  - apply (proj1 (deinit_idempotent idle_world true true)). reflexivity.
  - apply (proj1 (proj2 (proj2 (proj2 (deinit_idempotent serving_world true true))))).
    right. split; reflexivity.
  - apply (proj2 (proj2 (proj2 (proj2 (deinit_idempotent serving_world false true)))));
      [by eexists | reflexivity..].
Defined.

End Instances.

(** * Further properties *)

(** ** Configuration values *)

Section ConfigurationValues.

Lemma lookup_options_insert (k k' : string) (v : variable_value)
    (m : gmap string variable_value) :
  options_insert k v m !! k' =
    match m !! k' with
    | Some x => Some x
    | None => if decide (k = k') then Some v else None
    end.
Proof.
  unfold options_insert. destruct (decide (k = k')) as [->|Hne].
  - destruct (m !! k') eqn:E; [by rewrite E|]. by rewrite lookup_insert_eq.
  - destruct (m !! k) eqn:E.
    + by destruct (m !! k').
    + rewrite lookup_insert_ne by done. by destruct (m !! k').
Qed.

Lemma lookup_options_insert_if (l : list string) (k k' : string) (v : variable_value)
    (m : gmap string variable_value) :
  (if negb (vector_empty l) then options_insert k v m else m) !! k' =
    match m !! k' with
    | Some x => Some x
    | None => if decide (k = k') then (if vector_empty l then None else Some v) else None
    end.
Proof.
  destruct (vector_empty l); simpl.
  - destruct (m !! k'); [done|]. by destruct (decide (k = k')).
  - apply lookup_options_insert.
Qed.

(** The options of the network snapshot, key by key. *)
Lemma lookup_makeNetNodeConfig (s : Settings) (k : string) :
  net_options (makeNetNodeConfig s) !! k =
    if decide ("p2p-bind-ip" = k) then
      Some (mk_variable_value (any_string (getP2pBindIp s)) false)
    else if decide ("p2p-bind-port" = k) then
      Some (mk_variable_value (any_uint16 (to_uint16 (getP2pBindPort s))) false)
    else if decide ("p2p-external-port" = k) then
      Some (mk_variable_value (any_uint16 (to_uint16 (getP2pExternalPort s))) false)
    else if decide ("allow-local-ip" = k) then
      Some (mk_variable_value (any_bool (hasAllowLocalIpOption s)) false)
    else if decide ("add-peer" = k) then
      if vector_empty (getPeers s) then None
      else Some (mk_variable_value (any_string_vector (getPeers s)) false)
    else if decide ("add-priority-node" = k) then
      if vector_empty (getPriorityNodes s) then None
      else Some (mk_variable_value (any_string_vector (getPriorityNodes s)) false)
    else if decide ("add-exclusive-node" = k) then
      if vector_empty (getExclusiveNodes s) then None
      else Some (mk_variable_value (any_string_vector (getExclusiveNodes s)) false)
    else if decide ("seed-node" = k) then
      if vector_empty (getSeedNodes s) then None
      else Some (mk_variable_value (any_string_vector (getSeedNodes s)) false)
    else if decide ("hide-my-port" = k) then
      Some (mk_variable_value (any_bool (hasHideMyPortOption s)) false)
    else if decide ("data-dir" = k) then
      Some (mk_variable_value (any_string (getDataDir s)) false)
    else None.
Proof.
  unfold makeNetNodeConfig. cbv zeta. unfold net_options, toStdString.
  rewrite !convertStringListToVector_spec.
  repeat first [rewrite lookup_options_insert | rewrite lookup_options_insert_if].
  rewrite lookup_empty.
  do 10 (match goal with
         | |- context [decide (?lit = k)] =>
             destruct (decide (lit = k)) as [<-|?];
             [ resolve_keys; repeat (destruct (vector_empty _)); reflexivity
             | cbv beta iota ]
         end).
  reflexivity.
Qed.

(** X1: [convertStringListToVector] converts item by item: the vector has
    the items of the list, converted, in the same order, and as many. *)
Theorem convertStringListToVector_map (items : list string) :
  convertStringListToVector items = map toStdString items ∧
  length (convertStringListToVector items) = length items.
Proof.
  rewrite convertStringListToVector_spec. unfold toStdString.
  by rewrite map_id.
Qed.

(** X2: every unconditional option of the network snapshot holds the value
    of the settings (the ports cast to [uint16_t]), and a peer-list option
    that is present holds the whole list of the settings, in order; none is
    marked as defaulted. *)
Theorem makeNetNodeConfig_values (s : Settings) :
  let options := net_options (makeNetNodeConfig s) in
  options !! "p2p-bind-ip" = Some (mk_variable_value (any_string (getP2pBindIp s)) false) ∧
  options !! "p2p-bind-port"
    = Some (mk_variable_value (any_uint16 (getP2pBindPort s mod 65536)) false) ∧
  options !! "p2p-external-port"
    = Some (mk_variable_value (any_uint16 (getP2pExternalPort s mod 65536)) false) ∧
  options !! "allow-local-ip"
    = Some (mk_variable_value (any_bool (hasAllowLocalIpOption s)) false) ∧
  options !! "hide-my-port"
    = Some (mk_variable_value (any_bool (hasHideMyPortOption s)) false) ∧
  options !! "data-dir" = Some (mk_variable_value (any_string (getDataDir s)) false) ∧
  (∀ v, options !! "add-peer" = Some v →
        v = mk_variable_value (any_string_vector (getPeers s)) false) ∧
  (∀ v, options !! "add-priority-node" = Some v →
        v = mk_variable_value (any_string_vector (getPriorityNodes s)) false) ∧
  (∀ v, options !! "add-exclusive-node" = Some v →
        v = mk_variable_value (any_string_vector (getExclusiveNodes s)) false) ∧
  (∀ v, options !! "seed-node" = Some v →
        v = mk_variable_value (any_string_vector (getSeedNodes s)) false).
Proof.
  cbv zeta. repeat split; try intros v;
    rewrite lookup_makeNetNodeConfig; resolve_keys; try reflexivity;
    destruct (vector_empty _); congruence.
Qed.

(** X3: the two ports stored in the network snapshot are always within the
    range of [uint16_t], and are the ports of the settings when those are
    within that range. *)
Theorem makeNetNodeConfig_ports_in_range (s : Settings) :
  ∃ bind external,
    net_options (makeNetNodeConfig s) !! "p2p-bind-port"
      = Some (mk_variable_value (any_uint16 bind) false) ∧
    net_options (makeNetNodeConfig s) !! "p2p-external-port"
      = Some (mk_variable_value (any_uint16 external) false) ∧
    0 ≤ bind < 65536 ∧ 0 ≤ external < 65536 ∧
    (0 ≤ getP2pBindPort s < 65536 → bind = getP2pBindPort s) ∧
    (0 ≤ getP2pExternalPort s < 65536 → external = getP2pExternalPort s).
Proof.
  exists (to_uint16 (getP2pBindPort s)), (to_uint16 (getP2pExternalPort s)).
  split; [rewrite lookup_makeNetNodeConfig; resolve_keys; reflexivity|].
  split; [rewrite lookup_makeNetNodeConfig; resolve_keys; reflexivity|].
  unfold to_uint16.
  split; [apply Z.mod_pos_bound; lia|].
  split; [apply Z.mod_pos_bound; lia|].
  split; intros ?; by apply Z.mod_small.
Qed.

(** X4: the network snapshot holds no option beyond the ten keys written by
    [makeNetNodeConfig]. *)
Theorem makeNetNodeConfig_no_other_option (s : Settings) (k : string) :
  has_option (makeNetNodeConfig s) k →
  k ∈ ["p2p-bind-ip"; "p2p-bind-port"; "p2p-external-port"; "allow-local-ip";
       "add-peer"; "add-priority-node"; "add-exclusive-node"; "seed-node";
       "hide-my-port"; "data-dir"].
Proof.
  unfold has_option. rewrite lookup_makeNetNodeConfig.
  repeat (destruct (decide (_ = k)) as [<-|?];
          [intros _; repeat first [apply list_elem_of_here | apply list_elem_of_further]|]).
  by intros [? ?].
Qed.

Lemma makeNetNodeConfig_no_other_option_witness :
  "seed-node" ∈ ["p2p-bind-ip"; "p2p-bind-port"; "p2p-external-port"; "allow-local-ip";
       "add-peer"; "add-priority-node"; "add-exclusive-node"; "seed-node";
       "hide-my-port"; "data-dir"].
Proof.
  apply (makeNetNodeConfig_no_other_option
           (mkSettings "/data" "0.0.0.0" 17336 0 false false [] [] [] ["10.0.0.1:17336"] false)).
  unfold has_option. rewrite lookup_makeNetNodeConfig. resolve_keys. simpl. eauto.
Defined.

(** X5: the core snapshot holds the data directory of the settings under
    "data-dir" and nothing else, and the network snapshot built from the
    same settings holds the same value under that key. *)
Theorem makeCoreConfig_data_dir (s : Settings) :
  core_options (makeCoreConfig s)
    = {[ "data-dir" := mk_variable_value (any_string (getDataDir s)) false ]} ∧
  net_options (makeNetNodeConfig s) !! "data-dir"
    = core_options (makeCoreConfig s) !! "data-dir".
Proof.
  assert (Hcore : core_options (makeCoreConfig s)
    = {[ "data-dir" := mk_variable_value (any_string (getDataDir s)) false ]}).
  { unfold makeCoreConfig, core_options, options_insert, toStdString.
    rewrite lookup_empty. apply insert_empty. }
  split; [done|].
  rewrite Hcore, lookup_singleton_eq, lookup_makeNetNodeConfig. resolve_keys. reflexivity.
Qed.

End ConfigurationValues.

(** ** More on the worker's [start] *)

Section WorkerMore.
Import InProcessNodeInitializer.
Context `{Constants}.

(** X6: [start] emits [nodeDeinitCompletedSignal] exactly when the node was
    constructed and its [init] call returned.  In that case the node it
    constructed is the one node it deletes and the slot ends null; in every
    other case with a constructed node, the node stays in the slot and
    nothing is deleted.  The node found in the slot on entry is never
    deleted. *)
Theorem start_deinit_signal_iff_torn_down (r : run) (_node : option Node) :
  let rep := start r _node in
  (nodeDeinitCompletedSignal ∈ emitted (effects rep) ↔
     (∃ n, createInprocessNode r = Returns n) ∧ init_end r = InitReturns) ∧
  (∀ n, createInprocessNode r = Returns n →
     (init_end r = InitReturns → slot rep = None ∧ deleted (effects rep) = [n]) ∧
     (init_end r ≠ InitReturns → slot rep = Some n ∧ deleted (effects rep) = [])) ∧
  (∀ e, createInprocessNode r = Throws e →
     slot rep = _node ∧ deleted (effects rep) = []).
Proof.
  cbv zeta. unfold start.
  destruct (createInprocessNode r) as [n|e]; simpl.
  - pose proof (callbacks_emit_no_deinit (init_callbacks r)) as Hcb.
    pose proof (deleted_callbacks (init_callbacks r)) as Hdel.
    destruct (init_end r) as [|[]|]; simpl; rewrite ?emitted_app; simpl.
    + split; [|split; [|done]].
      * split; [eauto|]. intros _. apply elem_of_app. right.
        apply list_elem_of_here.
      * intros n' [= <-]. split; [|done]. intros _.
        by rewrite deleted_app, Hdel.
    + split; [|split; [|done]].
      * split; [|by intros [_ ?]].
        rewrite elem_of_app. intros [Hin|Hin]; [done|].
        apply list_elem_of_singleton in Hin. discriminate.
      * intros n' [= <-]. split; [done|]. intros _.
        by rewrite deleted_app, Hdel.
    + split; [|split; [|done]].
      * split; [done|by intros [_ ?]].
      * intros n' [= <-]. by split.
    + split; [|split; [|done]].
      * split; [done|by intros [_ ?]].
      * intros n' [= <-]. by split.
    + split; [|split; [|done]].
      * split; [done|by intros [_ ?]].
      * intros n' [= <-]. by split.
  - split; [|split; [done|]].
    + split; [by intros ?%elem_of_nil|]. by intros [[? ?] _].
    + intros e' _. done.
Qed.

End WorkerMore.

(** ** More on the read accessors *)

Section AccessorsMore.
Import NodeAdapter.

(** X7: the read accessors are read-only: whether they return, let an
    exception through or stop at their check, the adapter's state and what
    has been observed are left as they were. *)
Theorem accessors_leave_world_unchanged (w : World) :
  world_of (getPeerCount w) = w ∧
  world_of (getLastKnownBlockHeight w) = w ∧
  world_of (getLastLocalBlockHeight w) = w ∧
  world_of (getLastLocalBlockTimestamp w) = w ∧
  (∀ s, world_of (convertPaymentId s w) = w) ∧
  (∀ x, world_of (extractPaymentId x w) = w) ∧
  world_of (createWallet w) = w.
Proof.
  destruct w as [[n|] thr wi st tr]; [|by repeat split].
  repeat split; intros;
    unfold getPeerCount, getLastKnownBlockHeight, getLastLocalBlockHeight,
      getLastLocalBlockTimestamp, convertPaymentId, extractPaymentId, createWallet;
    run_M;
    match goal with
    | |- context [match ?o with Returns _ => _ | Throws _ => _ end] =>
        destruct o as [?|[]]; reflexivity
    end.
Qed.

(** X8: with a node installed each read accessor returns what the node
    answers: the value itself, and for [getLastLocalBlockTimestamp] the
    node's time, reduced to the 32 bits of the parameter of
    [QDateTime::fromTime_t], as a UTC [QDateTime]; a time below 2^32 is
    kept as it is. *)
Theorem accessors_delegate (w : World) (n : Node) :
  m_node w = Some n →
  (∀ v, node_getPeerCount n = Returns v → getPeerCount w = Ret v w) ∧
  (∀ v, node_getLastKnownBlockHeight n = Returns v →
        getLastKnownBlockHeight w = Ret v w) ∧
  (∀ v, node_getLastLocalBlockHeight n = Returns v →
        getLastLocalBlockHeight w = Ret v w) ∧
  (∀ t, node_getLastLocalBlockTimestamp n = Returns t →
        getLastLocalBlockTimestamp w = Ret (mkQDateTime (t mod 2 ^ 32)%N true) w ∧
        ((t < 2 ^ 32)%N →
         getLastLocalBlockTimestamp w = Ret (mkQDateTime t true) w)) ∧
  (∀ s v, node_convertPaymentId n s = Returns v → convertPaymentId s w = Ret v w) ∧
  (∀ x v, node_extractPaymentId n x = Returns v → extractPaymentId x w = Ret v w) ∧
  (∀ p, node_createWallet n = Returns p → createWallet w = Ret p w).
Proof.
  destruct w as [node thr wi st tr]. simpl. intros ->.
  repeat split; intros; try split; intros;
    match goal with E : _ = Returns _ |- _ => revert E end;
    unfold convertPaymentId, extractPaymentId, getPeerCount, getLastKnownBlockHeight,
      getLastLocalBlockHeight, getLastLocalBlockTimestamp, createWallet, toStdString,
      fromStdString, fromTime_t;
    run_M; intros ->; try reflexivity.
  by rewrite N.mod_small.
Qed.

Lemma accessors_delegate_witness :
  getLastLocalBlockTimestamp (world_with rpc_node)
  = Ret (mkQDateTime 1234 true) (world_with rpc_node).
Proof.
  apply (proj1 (proj2 (proj2 (proj2 (accessors_delegate (world_with rpc_node) rpc_node
                                        eq_refl)))) 1234%N eq_refl).
  reflexivity.
Defined.

(** X9: [convertPaymentId] never lets a [std::runtime_error] through, in any
    state and for any input; an exception of another type thrown by the
    node does reach the caller. *)
Theorem convertPaymentId_never_raises_runtime_error (w : World) (s : string) :
  (∀ w', convertPaymentId s w ≠ Raise std_runtime_error w') ∧
  (∀ n, m_node w = Some n →
        node_convertPaymentId n (toStdString s) = Throws other_exception →
        convertPaymentId s w = Raise other_exception w).
Proof.
  destruct w as [[n|] thr wi st tr]; simpl.
  - split.
    + intros w'. unfold convertPaymentId, toStdString. run_M.
      destruct (node_convertPaymentId n s) as [?|[]]; discriminate.
    + intros n' [= <-]. unfold convertPaymentId. run_M. intros ->. reflexivity.
  - split; [discriminate|]. intros n' ?. discriminate.
Qed.

End AccessorsMore.

(** ** More on the lifecycle *)

Section LifecycleMore.
Import NodeAdapter.
Context `{Constants}.

Lemma deinit_direct (connected : bool) (w : World) (n : Node) :
  m_node w = Some n →
  thread_isRunning w = false →
  deinit connected w = Ret tt (mkWorld None false (worker_in_init w) (settings w)
                                 (trace w ++ [NodeDeleted n])).
Proof. destruct w as [p thr wi st tr]. simpl. by intros -> ->. Qed.

Lemma deinit_through_worker (w : World) (n : Node) :
  m_node w = Some n →
  thread_isRunning w = true →
  worker_in_init w = true →
  deinit true w = Ret tt (mkWorld None false false (settings w)
                       (trace w ++ [OnWorker (Worker.DeinitCalled n);
                                    OnWorker (Worker.Deleted n);
                                    OnWorker (Worker.Stored None);
                                    OnWorker (Worker.Emitted Worker.nodeDeinitCompletedSignal);
                                    ThreadQuit])).
Proof.
  destruct w as [p thr wi st tr]. simpl. intros -> -> ->.
  unfold deinit, worker_stop, worker_resume. run_M. simpl.
  by rewrite <- !app_assoc.
Qed.

(** The worker's signal is emitted before line 233 has connected it to the
    loop: nothing ever quits the loop, and the node is gone. *)
Lemma deinit_signal_lost (w : World) (n : Node) :
  m_node w = Some n →
  thread_isRunning w = true →
  worker_in_init w = true →
  deinit false w = Blocked (mkWorld None true false (settings w)
                       (trace w ++ [OnWorker (Worker.DeinitCalled n);
                                    OnWorker (Worker.Deleted n);
                                    OnWorker (Worker.Stored None);
                                    OnWorker (Worker.Emitted Worker.nodeDeinitCompletedSignal)])).
Proof.
  destruct w as [p thr wi st tr]. simpl. intros -> -> ->.
  unfold deinit, worker_stop, worker_resume. run_M. simpl.
  by rewrite <- !app_assoc.
Qed.

Lemma deinit_blocked (connected : bool) (w : World) (n : Node) :
  m_node w = Some n →
  thread_isRunning w = true →
  worker_in_init w = false →
  deinit connected w = Blocked (extend w [OnWorker (Worker.DeinitCalled n)]).
Proof. destruct w as [p thr wi st tr]. simpl. intros -> -> ->. by destruct connected. Qed.

Lemma start_suspended_slot (r : Worker.run) (p : option Node) :
  Worker.suspended (Worker.start r p) = true → is_Some (Worker.slot (Worker.start r p)).
Proof.
  unfold Worker.suspended, Worker.start.
  destruct (Worker.createInprocessNode r); [|discriminate].
  destruct (Worker.init_end r) as [|[]|]; simpl; try discriminate. eauto.
Qed.

Lemma initInProcessNode_escaped (r : Worker.run) (w : World) (e : exn) :
  m_node w = None →
  worker_in_init w = false →
  Worker.control (Worker.start r None) = Worker.Escaped e →
  initInProcessNode r w =
    Abort (uncaught_on_worker e)
      (mkWorld (Worker.slot (Worker.start r None)) true false (settings w)
         (trace w ++ [ThreadStart;
                      Emit (initNodeSignal (makeCoreConfig (settings w))
                                           (makeNetNodeConfig (settings w)))]
                  ++ map OnWorker (Worker.effects (Worker.start r None)))).
Proof.
  destruct w as [p thr wi st tr]. simpl. intros -> -> Hctl.
  unfold initInProcessNode, worker_start.
  cbv beta iota zeta delta
    [mbind mret M_bind M_ret get_m_node set_thread_isRunning get_settings log Q_EMIT
     get_worker_in_init Q_ASSERT is_null m_node thread_isRunning worker_in_init settings
     trace negb andb].
  assert (resumed_at r None = Worker.start r None) as ->.
  { unfold resumed_at, Worker.teardown_pending. revert Hctl. unfold Worker.start.
    destruct (Worker.createInprocessNode r); [|done].
    by destruct (Worker.init_end r). }
  unfold Worker.suspended. rewrite Hctl. by rewrite <- !app_assoc.
Qed.

Lemma world_of_worker_finishes {A} (pending : bool) (body : M A) (w : World) :
  world_of (worker_finishes pending body w)
  = (if pending then teardown else id) (world_of (body w)).
Proof. unfold worker_finishes. destruct pending; [|done]. by destruct (body w). Qed.

(** The queries that follow a successful wait change nothing but the
    trace. *)
Lemma height_queries_frame (w1 : World) :
  let w2 := world_of
    ((local ← getLastLocalBlockHeight;
      Q_EMIT (localBlockchainUpdatedSignal local);;
      known ← getLastKnownBlockHeight;
      Q_EMIT (lastKnownBlockHeightUpdatedSignal known);;
      mret true) w1) in
  m_node w2 = m_node w1 ∧ thread_isRunning w2 = thread_isRunning w1 ∧
  worker_in_init w2 = worker_in_init w1 ∧ settings w2 = settings w1.
Proof.
  destruct w1 as [[n|] thr1 wi1 st1 tr1]; [|done].
  unfold getLastLocalBlockHeight, getLastKnownBlockHeight. run_M.
  destruct (node_getLastLocalBlockHeight n); [|done].
  destruct (node_getLastKnownBlockHeight n); done.
Qed.

Lemma height_queries_spec (w1 : World) (n : Node) (local known : N) :
  m_node w1 = Some n →
  node_getLastLocalBlockHeight n = Returns local →
  node_getLastKnownBlockHeight n = Returns known →
  (local ← getLastLocalBlockHeight;
   Q_EMIT (localBlockchainUpdatedSignal local);;
   known ← getLastKnownBlockHeight;
   Q_EMIT (lastKnownBlockHeightUpdatedSignal known);;
   mret true) w1
  = Ret true (extend w1 [Emit (localBlockchainUpdatedSignal local);
                         Emit (lastKnownBlockHeightUpdatedSignal known)]).
Proof.
  destruct w1 as [p thr1 wi1 st1 tr1]. simpl. intros -> Hlocal Hknown.
  unfold getLastLocalBlockHeight, getLastKnownBlockHeight, extend. run_M.
  rewrite Hlocal, Hknown. simpl. by rewrite <- app_assoc.
Qed.

Lemma height_queries_null (w1 : World) :
  m_node w1 = None →
  (local ← getLastLocalBlockHeight;
   Q_EMIT (localBlockchainUpdatedSignal local);;
   known ← getLastKnownBlockHeight;
   Q_EMIT (lastKnownBlockHeightUpdatedSignal known);;
   mret true) w1
  = Raise std_bad_alloc w1.
Proof. destruct w1 as [p thr1 wi1 st1 tr1]. simpl. by intros ->. Qed.

(** The wait and what follows it change nothing but the trace. *)
Lemma after_request_frame (pushes : list node_event) (sigs : list Worker.signal)
    (w1 : World) :
  let w2 := world_of
    ((dispatch_all pushes;;
      code ← waitLoop_init sigs;
      if bool_decide (code ≠ 0) then mret false
      else
        local ← getLastLocalBlockHeight;
        Q_EMIT (localBlockchainUpdatedSignal local);;
        known ← getLastKnownBlockHeight;
        Q_EMIT (lastKnownBlockHeightUpdatedSignal known);;
        mret true) w1) in
  m_node w2 = m_node w1 ∧ thread_isRunning w2 = thread_isRunning w1 ∧
  worker_in_init w2 = worker_in_init w1 ∧ settings w2 = settings w1.
Proof.
  cbv zeta. rewrite after_request_spec.
  destruct (first_init_signal sigs) as [[|code|]|]; try done.
  - apply (height_queries_frame (extend w1 _)).
  - case_bool_decide; [done|]. apply (height_queries_frame (extend w1 _)).
Qed.

(** What [initInProcessNode] leaves behind, however it ends. *)
Lemma initInProcessNode_frame (r : Worker.run) (w : World) :
  m_node w = None →
  worker_in_init w = false →
  let w' := world_of (initInProcessNode r w) in
  m_node w' = Worker.slot (Worker.start r None) ∧
  thread_isRunning w' = true ∧
  worker_in_init w' = Worker.suspended (Worker.start r None) ∧
  settings w' = settings w.
Proof.
  intros Hnull Hidle. cbv zeta.
  destruct (Worker.control (Worker.start r None)) as [|e|] eqn:Hctl.
  2: { rewrite (initInProcessNode_escaped r w e Hnull Hidle Hctl). simpl.
       unfold Worker.suspended. by rewrite Hctl. }
  all: rewrite (initInProcessNode_unfold r w Hnull Hidle)
         by (intros e; rewrite Hctl; discriminate);
       rewrite world_of_worker_finishes;
       match goal with
       | |- context [world_of ((dispatch_all ?pushes;; _) ?w1)] =>
           destruct (after_request_frame pushes
                       (Worker.emitted (Worker.effects (resumed_at r None))) w1)
             as (E1 & E2 & E3 & E4)
       end;
       cbv zeta in E1, E2, E3, E4;
       pose proof (resumed_at_slot r) as Hslot;
       destruct (resumed_at_control r None) as [_ Hsusp];
       set (w2 := world_of _) in *; clearbody w2;
       destruct w2 as [p2 thr2 wi2 st2 tr2]; simpl in E1, E2, E3, E4; subst;
       rewrite <- Hslot, <- Hsusp;
       by destruct (Worker.teardown_pending r).
Qed.

(** X10: [initInProcessNode] never stops the worker's thread: entered with
    no node and an idle worker, it leaves the thread running however it
    ends, with [m_node] holding what the worker left in the slot. *)
Theorem initInProcessNode_leaves_thread_running (r : Worker.run) (w : World) :
  m_node w = None →
  worker_in_init w = false →
  thread_isRunning (world_of (initInProcessNode r w)) = true ∧
  m_node (world_of (initInProcessNode r w)) = Worker.slot (Worker.start r None).
Proof.
  intros Hnull Hidle.
  destruct (initInProcessNode_frame r w Hnull Hidle) as (? & ? & _). done.
Qed.

(** X11: the in-process path has no timeout: when the node never invokes the
    completion callback of [init] and [init] does not throw, the wait of
    [initInProcessNode] never ends. *)
Theorem initInProcessNode_waits_forever (r : Worker.run) (w : World) (n : Node) :
  m_node w = None →
  worker_in_init w = false →
  Worker.createInprocessNode r = Returns n →
  Worker.init_callbacks r = [] →
  (∀ e, Worker.init_end r ≠ Worker.InitThrows e) →
  ∃ w', initInProcessNode r w = Blocked w'.
Proof.
  intros Hnull Hidle Hn Hcb Hend.
  assert (Hctl : ∀ e, Worker.control (Worker.start r None) ≠ Worker.Escaped e).
  { unfold Worker.start. rewrite Hn. destruct (Worker.init_end r) as [|e|] eqn:E; try done.
    by destruct (Hend e). }
  rewrite (initInProcessNode_unfold r w Hnull Hidle Hctl).
  unfold worker_finishes. rewrite after_request_spec, resumed_at_first_init_signal.
  assert (first_init_signal (Worker.emitted (Worker.effects (Worker.start r None))) = None)
    as ->.
  { unfold Worker.start. rewrite Hn, Hcb.
    destruct (Worker.init_end r) as [|e|] eqn:E; try done. by destruct (Hend e). }
  destruct (Worker.teardown_pending r); eauto.
Qed.

(** X12: the exit code of the wait of [initInProcessNode] is 0 exactly when
    the first init signal of the worker is [nodeInitCompletedSignal]: with
    [INTERNAL_WALLET_ERROR] not 0, the worker never reports a failure with
    code 0. *)
Theorem waitLoop_init_code_zero_iff_completed
    (r : Worker.run) (_node : option Node) (w w' : World) (code : Z) :
  INTERNAL_WALLET_ERROR ≠ 0 →
  waitLoop_init (Worker.emitted (Worker.effects (Worker.start r _node))) w = Ret code w' →
  (code = 0 ↔
   first_init_signal (Worker.emitted (Worker.effects (Worker.start r _node)))
     = Some Worker.nodeInitCompletedSignal).
Proof.
  intros Hc. rewrite waitLoop_init_spec.
  destruct (first_init_signal _) as [[|c|]|] eqn:Hfirst; try discriminate.
  - intros [= <- _]. done.
  - intros [= -> _].
    assert (code ≠ 0).
    { eapply (emitted_failure_nonzero r _node); [done|].
      by apply first_init_signal_elem. }
    split; [done|discriminate].
Qed.

End LifecycleMore.

Section Sessions.
Import NodeAdapter.
Context `{Constants}.

Lemma init_on_liveness (rpc : rpc_run) (r : Worker.run) (w : World) (t : Z) (ev : node_event) :
  m_node w = None →
  chronological (arrivals rpc) →
  (t, ev) ∈ arrivals rpc →
  t < initTimer_interval →
  liveness ev →
  ∃ w1, init rpc r w = Ret true w1 ∧
        m_node w1 = Some (createRpcNode rpc "127.0.0.1" RPC_DEFAULT_PORT) ∧
        thread_isRunning w1 = thread_isRunning w ∧
        worker_in_init w1 = worker_in_init w ∧
        settings w1 = settings w.
Proof.
  intros Hnull Hsorted Hin Ht Hlive.
  destruct (init_unfold rpc r w Hnull) as (b & relayed & E & _ & ->).
  assert (b = true) as -> by (eapply waitLoop_rpc_liveness; eauto).
  eexists. split; [reflexivity|]. done.
Qed.

Lemma init_on_timeout (rpc : rpc_run) (r : Worker.run) (w : World) :
  m_node w = None →
  (∀ t ev, (t, ev) ∈ arrivals rpc → liveness ev → initTimer_interval ≤ t) →
  ∃ w0, init rpc r w = initInProcessNode r w0 ∧
        m_node w0 = None ∧
        thread_isRunning w0 = thread_isRunning w ∧
        worker_in_init w0 = worker_in_init w ∧
        settings w0 = settings w.
Proof.
  intros Hnull Hno.
  destruct (init_unfold rpc r w Hnull) as (b & relayed & E & _ & ->).
  assert (b = false) as -> by (eapply waitLoop_rpc_timeout; eauto).
  eexists. split; [reflexivity|]. done.
Qed.

Lemma initInProcessNode_on_failure (r : Worker.run) (w : World) (code : Z) :
  INTERNAL_WALLET_ERROR ≠ 0 →
  m_node w = None →
  worker_in_init w = false →
  (∀ e, Worker.control (Worker.start r None) ≠ Worker.Escaped e) →
  first_init_signal (Worker.emitted (Worker.effects (Worker.start r None)))
    = Some (Worker.nodeInitFailedSignal code) →
  ∃ w1, initInProcessNode r w = Ret false w1 ∧
        m_node w1 = Worker.slot (Worker.start r None) ∧
        thread_isRunning w1 = true ∧
        worker_in_init w1 = Worker.suspended (Worker.start r None) ∧
        settings w1 = settings w.
Proof.
  intros Hc Hnull Hidle Hctl Hfirst.
  assert (code ≠ 0).
  { eapply (emitted_failure_nonzero r None); [done|]. by apply first_init_signal_elem. }
  pose proof (initInProcessNode_frame r w Hnull Hidle) as Hfr. cbv zeta in Hfr.
  assert (∃ w1, initInProcessNode r w = Ret false w1) as [w1 E].
  { rewrite (initInProcessNode_unfold r w Hnull Hidle Hctl).
    unfold worker_finishes.
    rewrite after_request_spec, resumed_at_first_init_signal, Hfirst.
    rewrite bool_decide_eq_true_2 by done.
    destruct (Worker.teardown_pending r); eauto. }
  exists w1. by rewrite E in Hfr.
Qed.

Lemma initInProcessNode_on_success (r : Worker.run) (w : World) (n : Node) (local known : N) :
  m_node w = None →
  worker_in_init w = false →
  (∀ e, Worker.control (Worker.start r None) ≠ Worker.Escaped e) →
  first_init_signal (Worker.emitted (Worker.effects (Worker.start r None)))
    = Some Worker.nodeInitCompletedSignal →
  Worker.slot (Worker.start r None) = Some n →
  node_getLastLocalBlockHeight n = Returns local →
  node_getLastKnownBlockHeight n = Returns known →
  ∃ w1, initInProcessNode r w = Ret true w1 ∧
        m_node w1 = Some n ∧
        thread_isRunning w1 = true ∧
        worker_in_init w1 = Worker.suspended (Worker.start r None) ∧
        settings w1 = settings w.
Proof.
  intros Hnull Hidle Hctl Hfirst Hslot Hlocal Hknown.
  pose proof (initInProcessNode_frame r w Hnull Hidle) as Hfr. cbv zeta in Hfr.
  pose proof (resumed_at_slot r) as Hres.
  destruct (Worker.teardown_pending r) eqn:Hpending; [congruence|].
  assert (∃ w1, initInProcessNode r w = Ret true w1) as [w1 E].
  { rewrite (initInProcessNode_unfold r w Hnull Hidle Hctl), Hpending.
    unfold worker_finishes.
    rewrite after_request_spec, resumed_at_first_init_signal, Hfirst.
    unfold getLastLocalBlockHeight, getLastKnownBlockHeight, extend.
    run_M. rewrite Hres, Hslot, Hlocal, Hknown. eauto. }
  exists w1. rewrite E, Hslot in Hfr. by simpl in Hfr.
Qed.

Lemma initInProcessNode_busy (r : Worker.run) (w : World) :
  m_node w = None →
  worker_in_init w = true →
  ∃ w', initInProcessNode r w = Blocked w'.
Proof.
  destruct w as [p thr wi st tr]. simpl. intros -> ->.
  unfold initInProcessNode, worker_start. run_M. simpl. eauto.
Qed.

(** X13: a true from [initInProcessNode] does not mean that a node is
    installed.  When the in-process node reports success and its [init]
    then returns, the worker tears the node down.  If lines 97-99 run after
    the adapter has read the heights, [initInProcessNode] returns true and
    leaves no node: the worker has deleted it, and the thread is running.
    If they run before, the read of the first height throws
    [std::bad_alloc]. *)
Theorem initInProcessNode_true_without_node
    (r : Worker.run) (w : World) (n : Node) (local known : N) :
  m_node w = None →
  worker_in_init w = false →
  Worker.createInprocessNode r = Returns n →
  Worker.init_end r = Worker.InitReturns →
  first_init_signal (Worker.emitted (Worker.effects (Worker.start r None)))
    = Some Worker.nodeInitCompletedSignal →
  node_getLastLocalBlockHeight n = Returns local →
  node_getLastKnownBlockHeight n = Returns known →
  (Worker.teardown_first r = false →
   ∃ w1 tr,
     initInProcessNode r w = Ret true w1 ∧
     m_node w1 = None ∧ thread_isRunning w1 = true ∧ worker_in_init w1 = false ∧
     trace w1 = tr ++ [Emit (localBlockchainUpdatedSignal local);
                       Emit (lastKnownBlockHeightUpdatedSignal known);
                       OnWorker (Worker.Deleted n);
                       OnWorker (Worker.Stored None);
                       OnWorker (Worker.Emitted Worker.nodeDeinitCompletedSignal)]) ∧
  (Worker.teardown_first r = true →
   ∃ w1,
     initInProcessNode r w = Raise std_bad_alloc w1 ∧
     m_node w1 = None ∧ thread_isRunning w1 = true ∧ worker_in_init w1 = false).
Proof.
  intros Hnull Hidle Hn Hend Hfirst Hlocal Hknown.
  pose proof (start_init_returns r None n Hn Hend) as Hrep.
  assert (Hctl : ∀ e, Worker.control (Worker.start r None) ≠ Worker.Escaped e).
  { intros e. by rewrite Hrep. }
  pose proof (initInProcessNode_unfold r w Hnull Hidle Hctl) as E. cbv zeta in E.
  rewrite E. clear E.
  destruct (resumed_at_control r None) as [_ ->].
  unfold worker_finishes.
  rewrite after_request_spec, resumed_at_first_init_signal, Hfirst.
  unfold resumed_at, Worker.teardown_pending. rewrite Hn, Hend.
  split; intros ->; simpl.
  - unfold Worker.start_until_teardown. rewrite Hn.
    rewrite (height_queries_spec _ n local known) by done.
    unfold teardown, extend. simpl.
    eexists. eexists. split; [reflexivity|]. simpl.
    unfold Worker.suspended. rewrite Hrep. simpl.
    repeat split.
    rewrite <- (app_assoc _ [Emit (localBlockchainUpdatedSignal local); _] _).
    reflexivity.
  - rewrite Hrep.
    rewrite height_queries_null by done.
    eexists. split; [reflexivity|]. done.
Qed.

(** X14: a session on the RPC node.  From a state with no node and the
    worker's thread not running, [init] with a liveness notification before
    the timeout followed by [deinit] returns; [deinit] deletes the RPC node
    itself, the only effect it adds, and leaves no node, without the thread
    having been started. *)
Theorem rpc_session_round_trip
    (rpc : rpc_run) (r : Worker.run) (w : World) (t : Z) (ev : node_event)
    (connected : bool) :
  m_node w = None →
  thread_isRunning w = false →
  chronological (arrivals rpc) →
  (t, ev) ∈ arrivals rpc →
  t < initTimer_interval →
  liveness ev →
  let node := createRpcNode rpc "127.0.0.1" RPC_DEFAULT_PORT in
  ∃ w1 w2,
    init rpc r w = Ret true w1 ∧ m_node w1 = Some node ∧
    deinit connected w1 = Ret tt w2 ∧
    m_node w2 = None ∧ thread_isRunning w2 = false ∧
    worker_in_init w2 = worker_in_init w ∧
    trace w2 = trace w1 ++ [NodeDeleted node].
Proof.
  intros Hnull Hthr Hsorted Hin Ht Hlive node.
  destruct (init_on_liveness rpc r w t ev Hnull Hsorted Hin Ht Hlive)
    as (w1 & Hinit & Hnode & Hthr1 & Hwi1 & _).
  exists w1. eexists. split; [done|]. split; [done|].
  rewrite (deinit_direct connected w1 node Hnode) by congruence.
  split; [reflexivity|]. simpl. by rewrite Hwi1.
Qed.

(** X15: a session on the in-process node.  When nothing keeps the RPC
    node, the in-process node reports success and goes on serving, and its
    heights can be read, [init] returns true with that node installed and
    the thread running.  [deinit] then asks the node to stop, after which
    the worker deletes the node, nulls the slot and signals.  When that
    signal comes after the [connect] of line 233, [deinit] returns, the
    thread is stopped and the adapter can be initialised again; when it
    comes before, the signal is lost and [deinit] waits for ever, with no
    node and the thread still running. *)
Theorem inprocess_session_round_trip
    (rpc : rpc_run) (r : Worker.run) (w : World) (n : Node) (local known : N) :
  m_node w = None →
  worker_in_init w = false →
  (∀ t ev, (t, ev) ∈ arrivals rpc → liveness ev → initTimer_interval ≤ t) →
  Worker.createInprocessNode r = Returns n →
  Worker.init_end r = Worker.InitServing →
  first_init_signal (Worker.emitted (Worker.effects (Worker.start r None)))
    = Some Worker.nodeInitCompletedSignal →
  node_getLastLocalBlockHeight n = Returns local →
  node_getLastKnownBlockHeight n = Returns known →
  ∃ w1 w2 w3,
    init rpc r w = Ret true w1 ∧
    m_node w1 = Some n ∧ thread_isRunning w1 = true ∧ worker_in_init w1 = true ∧
    deinit true w1 = Ret tt w2 ∧
    m_node w2 = None ∧ thread_isRunning w2 = false ∧ worker_in_init w2 = false ∧
    trace w2 = trace w1 ++ [OnWorker (Worker.DeinitCalled n);
                            OnWorker (Worker.Deleted n);
                            OnWorker (Worker.Stored None);
                            OnWorker (Worker.Emitted Worker.nodeDeinitCompletedSignal);
                            ThreadQuit] ∧
    deinit false w1 = Blocked w3 ∧
    m_node w3 = None ∧ thread_isRunning w3 = true ∧ worker_in_init w3 = false ∧
    trace w3 = trace w1 ++ [OnWorker (Worker.DeinitCalled n);
                            OnWorker (Worker.Deleted n);
                            OnWorker (Worker.Stored None);
                            OnWorker (Worker.Emitted Worker.nodeDeinitCompletedSignal)].
Proof.
  intros Hnull Hidle Hno Hn Hend Hfirst Hlocal Hknown.
  destruct (init_on_timeout rpc r w Hnull Hno) as (w0 & -> & Hnull0 & _ & Hwi0 & _).
  pose proof (start_init_serving r None n Hn Hend) as Hrep.
  destruct (initInProcessNode_on_success r w0 n local known) as (w1 & E & Hn1 & Ht1 & Hw1 & _);
    try done; try congruence.
  { intros e. by rewrite Hrep. }
  { by rewrite Hrep. }
  assert (worker_in_init w1 = true) as Hw1'.
  { rewrite Hw1. unfold Worker.suspended. by rewrite Hrep. }
  exists w1. eexists. eexists.
  split; [done|]. split; [done|]. split; [done|]. split; [done|].
  rewrite (deinit_through_worker w1 n Hn1 Ht1 Hw1').
  rewrite (deinit_signal_lost w1 n Hn1 Ht1 Hw1').
  simpl. repeat (split; [reflexivity|]). reflexivity.
Qed.

(** X16: a failed in-process attempt leaves the worker's thread running,
    and that makes a later [deinit] of an RPC node wait for ever.  After an
    [init] that timed out on RPC and failed in process (the node's [init]
    returned), a second [init] that keeps the RPC node returns true, and
    the [deinit] that follows asks the worker to stop the node and then
    waits for a [nodeDeinitCompletedSignal] that nobody emits. *)
Theorem deinit_blocks_after_failed_inprocess_attempt
    (rpc1 rpc2 : rpc_run) (r1 r2 : Worker.run) (w : World)
    (n : Node) (code t : Z) (ev : node_event) (connected : bool) :
  INTERNAL_WALLET_ERROR ≠ 0 →
  m_node w = None →
  worker_in_init w = false →
  (∀ t ev, (t, ev) ∈ arrivals rpc1 → liveness ev → initTimer_interval ≤ t) →
  Worker.createInprocessNode r1 = Returns n →
  Worker.init_end r1 = Worker.InitReturns →
  first_init_signal (Worker.emitted (Worker.effects (Worker.start r1 None)))
    = Some (Worker.nodeInitFailedSignal code) →
  chronological (arrivals rpc2) →
  (t, ev) ∈ arrivals rpc2 →
  t < initTimer_interval →
  liveness ev →
  ∃ w1 w2 w3,
    init rpc1 r1 w = Ret false w1 ∧ m_node w1 = None ∧ thread_isRunning w1 = true ∧
    init rpc2 r2 w1 = Ret true w2 ∧
    deinit connected w2 = Blocked w3 ∧ is_Some (m_node w3).
Proof.
  intros Hc Hnull Hidle Hno Hn Hend Hfirst Hsorted Hin Ht Hlive.
  destruct (init_on_timeout rpc1 r1 w Hnull Hno) as (w0 & -> & Hnull0 & _ & Hwi0 & _).
  pose proof (start_init_returns r1 None n Hn Hend) as Hrep.
  destruct (initInProcessNode_on_failure r1 w0 code) as (w1 & E & Hn1 & Ht1 & Hw1 & _);
    try done; try congruence.
  { intros e. by rewrite Hrep. }
  rewrite Hrep in Hn1. simpl in Hn1.
  assert (worker_in_init w1 = false) as Hw1'.
  { rewrite Hw1. unfold Worker.suspended. by rewrite Hrep. }
  destruct (init_on_liveness rpc2 r2 w1 t ev Hn1 Hsorted Hin Ht Hlive)
    as (w2 & E2 & Hn2 & Ht2 & Hw2 & _).
  exists w1, w2. eexists. split; [done|]. split; [done|]. split; [done|]. split; [done|].
  rewrite (deinit_blocked connected w2 _ Hn2) by congruence.
  split; [reflexivity|]. simpl. rewrite Hn2. eauto.
Qed.

(** X17: when the node's [init] throws a [std::runtime_error] before any
    callback, [initInProcessNode] returns false with the node still
    installed and the worker idle, and the [deinit] that follows waits for
    ever: the worker has already left [start] and emits nothing more. *)
Theorem deinit_blocks_after_init_threw
    (r : Worker.run) (w : World) (n : Node) (connected : bool) :
  INTERNAL_WALLET_ERROR ≠ 0 →
  m_node w = None →
  worker_in_init w = false →
  Worker.createInprocessNode r = Returns n →
  Worker.init_callbacks r = [] →
  Worker.init_end r = Worker.InitThrows std_runtime_error →
  ∃ w1 w2,
    initInProcessNode r w = Ret false w1 ∧
    m_node w1 = Some n ∧ thread_isRunning w1 = true ∧ worker_in_init w1 = false ∧
    deinit connected w1 = Blocked w2 ∧ m_node w2 = Some n.
Proof.
  intros Hc Hnull Hidle Hn Hcb Hend.
  pose proof (start_init_runtime_error r None n Hn Hend) as Hrep.
  destruct (initInProcessNode_on_failure r w INTERNAL_WALLET_ERROR)
    as (w1 & E & Hn1 & Ht1 & Hw1 & _); try done.
  { intros e. by rewrite Hrep. }
  { rewrite Hrep, Hcb. reflexivity. }
  rewrite Hrep in Hn1. simpl in Hn1.
  assert (worker_in_init w1 = false) as Hw1'.
  { rewrite Hw1. unfold Worker.suspended. by rewrite Hrep. }
  exists w1. eexists. split; [done|]. split; [done|]. split; [done|]. split; [done|].
  rewrite (deinit_blocked connected w1 n Hn1 Ht1 Hw1'). split; [reflexivity|]. done.
Qed.

(** X18: when [init] returns false the in-process path was taken: the
    worker's thread is running and [m_node] holds what the worker left in
    the slot. *)
Theorem init_false_leaves_thread_running (rpc : rpc_run) (r : Worker.run) (w w1 : World) :
  init rpc r w = Ret false w1 →
  thread_isRunning w1 = true ∧ m_node w1 = Worker.slot (Worker.start r None).
Proof.
  destruct (m_node w) as [n|] eqn:Hnode.
  { destruct w as [p thr wi st tr]. simpl in Hnode. subst p. discriminate. }
  destruct (init_unfold rpc r w Hnode) as (b & relayed & _ & _ & ->).
  destruct b; [discriminate|].
  set (w0 := mkWorld None _ _ _ _).
  destruct (worker_in_init w) eqn:Hwi.
  - destruct (initInProcessNode_busy r w0) as (w' & ->); [done..|]. discriminate.
  - intros E.
    destruct (initInProcessNode_frame r w0) as (Hn1 & Ht1 & _); [done..|].
    rewrite E in Hn1, Ht1. simpl in Hn1, Ht1. done.
Qed.

End Sessions.

Section Reachability.
Import NodeAdapter.
Context `{Constants}.

Lemma resumes_world_of {A} (r : result A) (w' : World) :
  resumes r = Some w' → w' = world_of r.
Proof. destruct r; simpl; congruence. Qed.

Lemma init_keeps_consistent (rpc : rpc_run) (r : Worker.run) (w w' : World) :
  worker_consistent w →
  resumes (init rpc r w) = Some w' →
  worker_consistent w'.
Proof.
  intros Hw Hres.
  destruct (m_node w) as [n|] eqn:Hnode.
  { destruct w as [p thr wi st tr]. simpl in Hnode. subst p. discriminate. }
  assert (Hidle : worker_in_init w = false).
  { destruct (worker_in_init w) eqn:E; [|done].
    destruct (Hw E) as [_ [? ?]]. congruence. }
  destruct (init_unfold rpc r w Hnode) as (b & relayed & _ & _ & E).
  rewrite E in Hres. destruct b.
  - simpl in Hres. injection Hres as <-. unfold worker_consistent. simpl. congruence.
  - apply resumes_world_of in Hres. subst w'.
    match goal with
    | |- worker_consistent (world_of (initInProcessNode r ?w0)) =>
        destruct (initInProcessNode_frame r w0) as (Hn1 & Ht1 & Hw1 & _); [done..|]
    end.
    intros Hin. rewrite Hw1 in Hin. rewrite Hn1, Ht1.
    split; [done|]. by apply start_suspended_slot.
Qed.

Lemma initInProcessNode_keeps_consistent (r : Worker.run) (w w' : World) :
  worker_consistent w →
  resumes (initInProcessNode r w) = Some w' →
  worker_consistent w'.
Proof.
  intros Hw Hres.
  destruct (m_node w) as [n|] eqn:Hnode.
  { destruct w as [p thr wi st tr]. simpl in Hnode. subst p. discriminate. }
  assert (Hidle : worker_in_init w = false).
  { destruct (worker_in_init w) eqn:E; [|done].
    destruct (Hw E) as [_ [? ?]]. congruence. }
  apply resumes_world_of in Hres. subst w'.
  destruct (initInProcessNode_frame r w Hnode Hidle) as (Hn1 & Ht1 & Hw1 & _).
  intros Hin. rewrite Hw1 in Hin. rewrite Hn1, Ht1.
  split; [done|]. by apply start_suspended_slot.
Qed.

Lemma deinit_keeps_consistent (connected : bool) (w w' : World) :
  worker_consistent w →
  resumes (deinit connected w) = Some w' →
  worker_consistent w'.
Proof.
  intros Hw.
  destruct (m_node w) as [n|] eqn:Hnode.
  - destruct (thread_isRunning w) eqn:Hthr.
    + destruct (worker_in_init w) eqn:Hwi.
      * destruct connected.
        -- rewrite (deinit_through_worker w n Hnode Hthr Hwi). intros [= <-].
           unfold worker_consistent. simpl. discriminate.
        -- rewrite (deinit_signal_lost w n Hnode Hthr Hwi). discriminate.
      * rewrite (deinit_blocked connected w n Hnode Hthr Hwi). discriminate.
    + rewrite (deinit_direct connected w n Hnode Hthr). intros [= <-].
      unfold worker_consistent. simpl. intros Hwi.
      destruct (Hw Hwi) as [? _]. congruence.
  - destruct w as [p thr wi st tr]. simpl in Hnode. subst p.
    intros [= <-]. done.
Qed.

(** X19: in every state a client can bring a freshly constructed adapter to
    by calls of [init], [initInProcessNode], [deinit] and the read
    accessors, a worker suspended inside the node's [init] has its thread
    running and its node in [m_node]; so whenever the [Q_ASSERT] of [init]
    or [initInProcessNode] holds, the worker is idle. *)
Theorem reachable_worker_consistent (s : Settings) (w : World) :
  reachable s w →
  worker_consistent w ∧ (m_node w = None → worker_in_init w = false).
Proof.
  intros Hreach.
  assert (Hcons : worker_consistent w).
  { induction Hreach as [|w w' c _ IH Hstep].
    - unfold worker_consistent, constructed. simpl. discriminate.
    - destruct c; simpl in Hstep;
        try (eapply init_keeps_consistent; eassumption);
        try (eapply initInProcessNode_keeps_consistent; eassumption);
        try (eapply deinit_keeps_consistent; eassumption);
        apply resumes_world_of in Hstep; subst w';
        destruct w as [[n|] thr wi st tr]; try exact IH;
        unfold getPeerCount, getLastKnownBlockHeight, getLastLocalBlockHeight,
          getLastLocalBlockTimestamp, convertPaymentId, extractPaymentId, createWallet;
        run_M;
        match goal with
        | |- context [match ?o with Returns _ => _ | Throws _ => _ end] =>
            destruct o as [?|[]]; exact IH
        end. }
  split; [done|].
  intros Hnull. destruct (worker_in_init w) eqn:E; [|done].
  destruct (Hcons E) as [_ [? ?]]. congruence.
Qed.

End Reachability.

Section WaitBoundaries.
Import NodeAdapter.
Context `{Constants}.

Lemma waitLoop_rpc_cut_at_liveness
    (pre post post' : list (Z * node_event)) (t : Z) (ev : node_event) (w : World) :
  t < initTimer_interval →
  liveness ev →
  waitLoop_rpc (pre ++ (t, ev) :: post) w = waitLoop_rpc (pre ++ (t, ev) :: post') w.
Proof.
  intros Ht Hlive. revert w.
  induction pre as [|[t0 ev0] pre IH]; intros w; simpl.
  - destruct (Z.leb_spec initTimer_interval t) as [?|_]; [lia|].
    apply liveness_quits in Hlive. rewrite Hlive. done.
  - destruct (initTimer_interval <=? t0); [done|].
    unfold mbind, M_bind.
    destruct (dispatch ev0 w) as [[] w1| | |]; try done.
    destruct (quits_waitLoop ev0); [done|]. apply IH.
Qed.

Lemma waitLoop_rpc_cut_at_timeout
    (pre rest : list (Z * node_event)) (t : Z) (ev : node_event) (w : World) :
  initTimer_interval ≤ t →
  waitLoop_rpc (pre ++ (t, ev) :: rest) w = waitLoop_rpc pre w.
Proof.
  intros Ht. revert w.
  induction pre as [|[t0 ev0] pre IH]; intros w; simpl.
  - destruct (Z.leb_spec initTimer_interval t) as [_|?]; [done|lia].
  - destruct (initTimer_interval <=? t0); [done|].
    unfold mbind, M_bind.
    destruct (dispatch ev0 w) as [[] w1| | |]; try done.
    destruct (quits_waitLoop ev0); [done|]. apply IH.
Qed.

Lemma since_timeout_cut
    (pre post post' : list (Z * node_event)) (t : Z) (ev : node_event) :
  t < initTimer_interval →
  since_timeout (pre ++ (t, ev) :: post) = since_timeout (pre ++ (t, ev) :: post').
Proof.
  intros Ht. induction pre as [|[t0 ev0] pre IH]; simpl.
  - by destruct (Z.leb_spec initTimer_interval t) as [?|_]; [lia|].
  - destruct (initTimer_interval <=? t0); [by rewrite IH|done].
Qed.

Lemma late_arrivals_cut_at_liveness
    (pre post post' : list (Z * node_event)) (t : Z) (ev : node_event) :
  t < initTimer_interval →
  liveness ev →
  late_arrivals (pre ++ (t, ev) :: post) = late_arrivals (pre ++ (t, ev) :: post').
Proof.
  intros Ht Hlive. induction pre as [|[t0 ev0] pre IH].
  - simpl. destruct (Z.leb_spec initTimer_interval t) as [?|_]; [lia|].
    apply liveness_quits in Hlive. by rewrite Hlive.
  - change (late_arrivals (((t0, ev0) :: pre) ++ (t, ev) :: post))
      with (if initTimer_interval <=? t0
            then since_timeout (((t0, ev0) :: pre) ++ (t, ev) :: post)
            else if quits_waitLoop ev0 then []
                 else late_arrivals (pre ++ (t, ev) :: post)).
    change (late_arrivals (((t0, ev0) :: pre) ++ (t, ev) :: post'))
      with (if initTimer_interval <=? t0
            then since_timeout (((t0, ev0) :: pre) ++ (t, ev) :: post')
            else if quits_waitLoop ev0 then []
                 else late_arrivals (pre ++ (t, ev) :: post')).
    rewrite IH. by rewrite (since_timeout_cut ((t0, ev0) :: pre) post post' t ev Ht).
Qed.

Lemma late_arrivals_at_timeout
    (pre rest : list (Z * node_event)) (t : Z) (ev : node_event) :
  initTimer_interval ≤ t →
  Forall (λ a, a.1 < initTimer_interval ∧ ¬ liveness a.2) pre →
  late_arrivals (pre ++ (t, ev) :: rest) = (t, ev) :: since_timeout rest.
Proof.
  intros Ht. induction 1 as [|[t0 ev0] pre [Ht0 Hev0] _ IH]; simpl in *.
  - by destruct (Z.leb_spec initTimer_interval t) as [_|?]; [|lia].
  - destruct (Z.leb_spec initTimer_interval t0) as [?|_]; [lia|].
    destruct (quits_waitLoop ev0) eqn:Hq; [|done].
    by apply liveness_quits in Hq.
Qed.

Lemma waitLoop_rpc_no_liveness (pre : list (Z * node_event)) (w : World) :
  Forall (λ a, a.1 < initTimer_interval ∧ ¬ liveness a.2) pre →
  waitLoop_rpc pre w = Ret false (extend w (relays (map snd pre))).
Proof.
  intros Hpre. revert w.
  induction Hpre as [|[t0 ev0] pre [Ht0 Hev0] _ IH]; intros w; simpl in *.
  - by rewrite extend_nil.
  - destruct (Z.leb_spec initTimer_interval t0) as [?|_]; [lia|].
    unfold mbind, M_bind.
    assert (dispatch ev0 w = Ret tt (extend w (relay_of ev0))) as ->.
    { destruct ev0; simpl; [by rewrite extend_nil|reflexivity..]. }
    destruct (quits_waitLoop ev0) eqn:Hq; [by apply liveness_quits in Hq|].
    by rewrite IH, extend_extend.
Qed.

Lemma init_depends_on_wait (create : string → Z → Node)
    (sched1 sched2 : list (Z * node_event)) (r : Worker.run) (w : World) :
  (∀ w0, waitLoop_rpc sched1 w0 = waitLoop_rpc sched2 w0) →
  late_arrivals sched1 = late_arrivals sched2 →
  init (mkRpcRun create sched1) r w = init (mkRpcRun create sched2) r w.
Proof.
  intros Hsame Hlate.
  destruct w as [[n|] thr wi st tr]; [reflexivity|].
  unfold init. run_M. simpl. by rewrite Hsame, Hlate.
Qed.

(** X20: what arrives after the notification that ended the wait has no
    influence on [init]: two runs that agree up to and including a
    peer-count or local-blockchain notification that arrives before the
    timeout give the same result, whatever follows it. *)
Theorem init_ignores_arrivals_after_liveness
    (create : string → Z → Node) (pre post post' : list (Z * node_event))
    (t : Z) (ev : node_event) (r : Worker.run) (w : World) :
  t < initTimer_interval →
  liveness ev →
  init (mkRpcRun create (pre ++ (t, ev) :: post)) r w
  = init (mkRpcRun create (pre ++ (t, ev) :: post')) r w.
Proof.
  intros Ht Hlive. apply init_depends_on_wait.
  - intros w0. by apply waitLoop_rpc_cut_at_liveness.
  - by apply late_arrivals_cut_at_liveness.
Qed.

(** X21: nothing that arrives from the first arrival at or after 3000 ms on
    reaches the wait of [init] or keeps the RPC node: the wait ends as it
    does when the node delivers only what came before.  The late arrivals
    are relayed all the same, by the node's own calls of the callbacks
    before line 175 deletes it: when nothing before the timeout ended the
    wait, [init] relays what came before, then the late arrivals, deletes
    the RPC node and goes on in process. *)
Theorem init_relays_late_arrivals
    (create : string → Z → Node) (pre rest : list (Z * node_event))
    (t : Z) (ev : node_event) (r : Worker.run) (w : World) :
  initTimer_interval ≤ t →
  (∀ w0, waitLoop_rpc (pre ++ (t, ev) :: rest) w0 = waitLoop_rpc pre w0) ∧
  (m_node w = None →
   Forall (λ a, a.1 < initTimer_interval ∧ ¬ liveness a.2) pre →
   let node := create "127.0.0.1" RPC_DEFAULT_PORT in
   init (mkRpcRun create (pre ++ (t, ev) :: rest)) r w =
     initInProcessNode r
       (mkWorld None (thread_isRunning w) (worker_in_init w) (settings w)
          (trace w
             ++ [NodeCreated node; TimerStart initTimer_interval; NodeInit node]
             ++ relays (map snd pre)
             ++ relays (ev :: map snd (since_timeout rest))
             ++ [NodeDeleted node]))).
Proof.
  intros Ht. split.
  { intros w0. by apply waitLoop_rpc_cut_at_timeout. }
  intros Hnull Hpre node.
  destruct (init_unfold (mkRpcRun create (pre ++ (t, ev) :: rest)) r w Hnull)
    as (b & relayed & E & _ & ->).
  simpl in E. rewrite waitLoop_rpc_cut_at_timeout, waitLoop_rpc_no_liveness in E by done.
  injection E as <- E. apply app_inv_head in E. subst relayed.
  simpl arrivals. rewrite (late_arrivals_at_timeout pre rest t ev Ht Hpre).
  simpl. by rewrite <- !app_assoc.
Qed.

End WaitBoundaries.

(** ** More closed instances *)

Section MoreInstances.
Import NodeAdapter.

Lemma initInProcessNode_leaves_thread_running_witness :
  thread_isRunning (world_of (@initInProcessNode example_constants run_failing idle_world)) = true ∧
  m_node (world_of (@initInProcessNode example_constants run_failing idle_world)) = None.
Proof.
  exact (@initInProcessNode_leaves_thread_running example_constants run_failing idle_world
           eq_refl eq_refl).
Defined.

Lemma initInProcessNode_waits_forever_witness :
  ∃ w', @initInProcessNode example_constants
          (Worker.mkRun (Returns strict_node) [] Worker.InitServing) idle_world = Blocked w'.
Proof.
  apply (@initInProcessNode_waits_forever example_constants
           (Worker.mkRun (Returns strict_node) [] Worker.InitServing) idle_world strict_node);
    try reflexivity.
  intros e. discriminate.
Defined.

Lemma waitLoop_init_code_zero_iff_completed_witness :
  7 = 0 ↔
  first_init_signal
    (Worker.emitted (Worker.effects (@Worker.start example_constants run_failing None)))
    = Some Worker.nodeInitCompletedSignal.
Proof.
  apply (@waitLoop_init_code_zero_iff_completed example_constants run_failing None
           idle_world idle_world 7).
  - simpl. lia.
  - reflexivity.
Defined.

Lemma initInProcessNode_true_without_node_witness :
  ∃ w1 tr,
    @initInProcessNode example_constants
      (Worker.mkRunFull (Returns strict_node) [0] Worker.InitReturns [] false) idle_world
      = Ret true w1 ∧
    m_node w1 = None ∧ thread_isRunning w1 = true ∧ worker_in_init w1 = false ∧
    trace w1 = tr ++ [Emit (localBlockchainUpdatedSignal 90);
                      Emit (lastKnownBlockHeightUpdatedSignal 100);
                      OnWorker (Worker.Deleted strict_node);
                      OnWorker (Worker.Stored None);
                      OnWorker (Worker.Emitted Worker.nodeDeinitCompletedSignal)].
Proof.
  apply (proj1 (@initInProcessNode_true_without_node example_constants
                  (Worker.mkRunFull (Returns strict_node) [0] Worker.InitReturns [] false)
                  idle_world strict_node 90 100
                  eq_refl eq_refl eq_refl eq_refl eq_refl eq_refl eq_refl)).
  reflexivity.
Defined.

Lemma rpc_session_round_trip_witness :
  ∃ w1 w2,
    @init example_constants rpc_alive run_serving idle_world = Ret true w1 ∧
    m_node w1 = Some rpc_node ∧
    deinit true w1 = Ret tt w2 ∧
    m_node w2 = None ∧ thread_isRunning w2 = false ∧ worker_in_init w2 = false ∧
    trace w2 = trace w1 ++ [NodeDeleted rpc_node].
Proof.
  apply (@rpc_session_round_trip example_constants rpc_alive run_serving idle_world
           200 (ev_peerCountUpdated 5) true).
  - reflexivity.
  - reflexivity.
  - repeat constructor; simpl; lia.
  - apply list_elem_of_further, list_elem_of_here.
  - unfold initTimer_interval. lia.
  - left. by exists 5%N.
Defined.

Lemma rpc_silent_has_no_liveness (t : Z) (ev : node_event) :
  (t, ev) ∈ arrivals rpc_silent → liveness ev → initTimer_interval ≤ t.
Proof.
  intros Hin Hlive. simpl in Hin.
  apply elem_of_cons in Hin as [Heq|Hin].
  - inversion Heq; subst. destruct Hlive as [[? ?]|[? ?]]; discriminate.
  - apply elem_of_cons in Hin as [Heq|Hin].
    + inversion Heq; subst. unfold initTimer_interval. lia.
    + by apply elem_of_nil in Hin.
Defined.

Lemma inprocess_session_round_trip_witness :
  ∃ w1 w2 w3,
    @init example_constants rpc_silent run_serving idle_world = Ret true w1 ∧
    m_node w1 = Some strict_node ∧ thread_isRunning w1 = true ∧ worker_in_init w1 = true ∧
    deinit true w1 = Ret tt w2 ∧
    m_node w2 = None ∧ thread_isRunning w2 = false ∧ worker_in_init w2 = false ∧
    trace w2 = trace w1 ++ [OnWorker (Worker.DeinitCalled strict_node);
                            OnWorker (Worker.Deleted strict_node);
                            OnWorker (Worker.Stored None);
                            OnWorker (Worker.Emitted Worker.nodeDeinitCompletedSignal);
                            ThreadQuit] ∧
    deinit false w1 = Blocked w3 ∧
    m_node w3 = None ∧ thread_isRunning w3 = true ∧ worker_in_init w3 = false ∧
    trace w3 = trace w1 ++ [OnWorker (Worker.DeinitCalled strict_node);
                            OnWorker (Worker.Deleted strict_node);
                            OnWorker (Worker.Stored None);
                            OnWorker (Worker.Emitted Worker.nodeDeinitCompletedSignal)].
Proof.
  apply (@inprocess_session_round_trip example_constants rpc_silent run_serving idle_world
           strict_node 90 100); try reflexivity.
  exact rpc_silent_has_no_liveness.
Defined.

Lemma deinit_blocks_after_failed_inprocess_attempt_witness :
  ∃ w1 w2 w3,
    @init example_constants rpc_silent run_failing idle_world = Ret false w1 ∧
    m_node w1 = None ∧ thread_isRunning w1 = true ∧
    @init example_constants rpc_alive run_serving w1 = Ret true w2 ∧
    deinit true w2 = Blocked w3 ∧ is_Some (m_node w3).
Proof.
  apply (@deinit_blocks_after_failed_inprocess_attempt example_constants
           rpc_silent rpc_alive run_failing run_serving idle_world strict_node 7
           200 (ev_peerCountUpdated 5) true); try reflexivity.
  - simpl. lia.
  - exact rpc_silent_has_no_liveness.
  - repeat constructor; simpl; lia.
  - apply list_elem_of_further, list_elem_of_here.
  - left. by exists 5%N.
Defined.

Lemma deinit_blocks_after_init_threw_witness :
  ∃ w1 w2,
    @initInProcessNode example_constants
      (Worker.mkRun (Returns strict_node) [] (Worker.InitThrows std_runtime_error)) idle_world
      = Ret false w1 ∧
    m_node w1 = Some strict_node ∧ thread_isRunning w1 = true ∧ worker_in_init w1 = false ∧
    deinit true w1 = Blocked w2 ∧ m_node w2 = Some strict_node.
Proof.
  apply (@deinit_blocks_after_init_threw example_constants
           (Worker.mkRun (Returns strict_node) [] (Worker.InitThrows std_runtime_error))
           idle_world strict_node true); try reflexivity.
  simpl. lia.
Defined.

Lemma init_false_leaves_thread_running_witness :
  thread_isRunning (world_of (@init example_constants rpc_silent run_failing idle_world)) = true ∧
  m_node (world_of (@init example_constants rpc_silent run_failing idle_world)) = None.
Proof.
  apply (@init_false_leaves_thread_running example_constants rpc_silent run_failing idle_world).
  vm_compute. reflexivity.
Defined.

Lemma reachable_worker_consistent_witness :
  worker_consistent
    (world_of (@init example_constants rpc_silent run_serving (constructed (settings idle_world)))).
Proof.
  apply (@reachable_worker_consistent example_constants (settings idle_world)).
  apply (@reachable_call example_constants _ (constructed (settings idle_world)) _
           (call_init rpc_silent run_serving)).
  - apply reachable_constructed.
  - vm_compute. reflexivity.
Defined.

Lemma init_ignores_arrivals_after_liveness_witness :
  @init example_constants
    (mkRpcRun (λ _ _, rpc_node)
       ([(10, ev_initCallback 0)] ++ (200, ev_peerCountUpdated 5)
          :: [(250, ev_lastKnownBlockHeightUpdated 9)]))
    run_serving idle_world
  = @init example_constants
      (mkRpcRun (λ _ _, rpc_node) ([(10, ev_initCallback 0)] ++ (200, ev_peerCountUpdated 5) :: []))
      run_serving idle_world.
Proof.
  apply (@init_ignores_arrivals_after_liveness example_constants).
  - unfold initTimer_interval. lia.
  - left. by exists 5%N.
Defined.

Lemma init_relays_late_arrivals_witness :
  @init example_constants
    (mkRpcRun (λ _ _, rpc_node)
       ([(50, ev_lastKnownBlockHeightUpdated 9)] ++ (3000, ev_peerCountUpdated 5) :: []))
    run_serving idle_world
  = @initInProcessNode example_constants run_serving
      (mkWorld None false false (settings idle_world)
         [NodeCreated rpc_node; TimerStart 3000; NodeInit rpc_node;
          Emit (lastKnownBlockHeightUpdatedSignal 9);
          Emit (peerCountUpdatedSignal 5);
          NodeDeleted rpc_node]).
Proof.
  apply (proj2 (@init_relays_late_arrivals example_constants (λ _ _, rpc_node)
                  [(50, ev_lastKnownBlockHeightUpdated 9)] [] 3000 (ev_peerCountUpdated 5)
                  run_serving idle_world ltac:(unfold initTimer_interval; lia)) eq_refl).
  constructor; [split|constructor]; simpl.
  - unfold initTimer_interval. lia.
  - intros [[? ?]|[? ?]]; discriminate.
Defined.

End MoreInstances.
